(** * BookNest: the search-and-enrich pipeline, the suggestion inputs and the
      selection toggle of [src/App.tsx], as a shallow embedding.

    The component keeps eight pieces of state ([useState], lines 23-30) and
    mutates them from event handlers and from the asynchronous [fetchBooks].
    Here the state is a record, every handler is a function on it, and a run
    of [fetchBooks] is a small machine whose steps are the completions of the
    HTTP requests it has in flight. *)

From Stdlib Require Import ZArith String Ascii List Lia DecimalString.
From stdpp Require Import base option list gmap strings.

Set Warnings "-register-all".

Local Open Scope Z_scope.
Local Open Scope string_scope.
Local Open Scope list_scope.

(** ** JavaScript values

    What [axios] hands back in [response.data] is parsed JSON; [undefined]
    is added for absent properties.  Numbers are the integers the API's
    fields carry (years, page counts, cover ids), all of them far below
    10^21; fractions and larger numbers are not modelled.  Text is modelled
    by byte strings. *)

Inductive jsval : Type :=
| VUndef
| VNull
| VBool (b : bool)
| VNum (n : Z)
| VStr (s : string)
| VArr (elems : list jsval)
| VObj (props : gmap string jsval).

(** Truthiness, as used by [||], [&&], [if] and [? :]. *)
Definition truthy (v : jsval) : bool :=
  match v with
  | VUndef | VNull => false
  | VBool b => b
  | VNum n => negb (n =? 0)%Z
  | VStr s => negb (String.eqb s "")
  | VArr _ | VObj _ => true
  end.

(** [a || b]: the left operand when it is truthy, else the right one. *)
Definition js_or (a b : jsval) : jsval := if truthy a then a else b.

(** Decimal text of an integer: [Number.prototype.toString]. *)
Definition toString (n : Z) : string := NilZero.string_of_int (Z.to_int n).

Definition singleton_string (c : ascii) : string := String c EmptyString.

(** Own enumerable properties, the ones an object spread copies: the fields
    of an object, the indices of an array, the characters of a string;
    nothing for the other primitives. *)
Definition indexed {A} (f : A -> jsval) (l : list A) : gmap string jsval :=
  list_to_map (imap (fun i x => (toString (Z.of_nat i), f x)) l).

Definition own_props (v : jsval) : gmap string jsval :=
  match v with
  | VObj m => m
  | VArr l => indexed id l
  | VStr s => indexed (fun c => VStr (singleton_string c)) (list_ascii_of_string s)
  | _ => ∅
  end.

(** [v.name] for a property name that no prototype defines (every name the
    component reads: [docs], [key], [number_of_pages], [description],
    [value], [title], ...).  [None] is the [TypeError] raised on [undefined]
    and [null]. *)
Definition get (v : jsval) (name : string) : option jsval :=
  match v with
  | VUndef | VNull => None
  | _ => Some (default VUndef (own_props v !! name))
  end.

(** [v?.name] *)
Definition get_opt (v : jsval) (name : string) : option jsval :=
  match v with
  | VUndef | VNull => Some VUndef
  | _ => get v name
  end.

(** Values on which a property read throws. *)
Definition nullish (v : jsval) : bool :=
  match v with
  | VUndef | VNull => true
  | _ => false
  end.

(** [Array.prototype.join]: the texts of the elements, [null] and
    [undefined] as the empty text, with [sep] in between.  It throws when
    the conversion of an element does. *)
Definition joinWith (str : jsval -> option string) (sep : string) (l : list jsval)
  : option string :=
  parts ← mapM (fun x => if nullish x then Some "" else str x) l;
  Some (String.concat sep parts).

(** [String(v)], as a template literal and [join] apply it; [None] is the
    [TypeError] of a conversion that finds no callable [toString]: a parsed
    object with a property of its own called [toString].  The text of a
    number is its decimal numeral, as JavaScript prints integers below
    10^21. *)
Fixpoint toStr (v : jsval) : option string :=
  match v with
  | VUndef => Some "undefined"
  | VNull => Some "null"
  | VBool b => Some (if b then "true" else "false")
  | VNum n => Some (toString n)
  | VStr s => Some s
  | VArr l => joinWith toStr "," l
  | VObj m =>
      match m !! "toString" with
      | Some _ => None
      | None => Some "[object Object]"
      end
  end.

(** ** Component state (lines 23-30) *)

(** Books are objects and [===] compares objects by reference: a [ref] names
    one object. *)
Definition ref := nat.

Record State : Type := mkState {
  genre : string;
  year : string;
  books : list jsval;
  loading : bool;
  error : option string;
  genreSuggestions : list string;
  yearSuggestions : list Z;
  selectedBook : option ref
}.

Definition initialState : State :=
  mkState "" "" [] false None [] [] None.

Definition setGenre (g : string) (s : State) : State :=
  mkState g (year s) (books s) (loading s) (error s)
          (genreSuggestions s) (yearSuggestions s) (selectedBook s).
Definition setYear (y : string) (s : State) : State :=
  mkState (genre s) y (books s) (loading s) (error s)
          (genreSuggestions s) (yearSuggestions s) (selectedBook s).
Definition setBooks (bs : list jsval) (s : State) : State :=
  mkState (genre s) (year s) bs (loading s) (error s)
          (genreSuggestions s) (yearSuggestions s) (selectedBook s).
Definition setLoading (b : bool) (s : State) : State :=
  mkState (genre s) (year s) (books s) b (error s)
          (genreSuggestions s) (yearSuggestions s) (selectedBook s).
Definition setError (e : option string) (s : State) : State :=
  mkState (genre s) (year s) (books s) (loading s) e
          (genreSuggestions s) (yearSuggestions s) (selectedBook s).
Definition setGenreSuggestions (l : list string) (s : State) : State :=
  mkState (genre s) (year s) (books s) (loading s) (error s)
          l (yearSuggestions s) (selectedBook s).
Definition setYearSuggestions (l : list Z) (s : State) : State :=
  mkState (genre s) (year s) (books s) (loading s) (error s)
          (genreSuggestions s) l (selectedBook s).
Definition setSelectedBook (b : option ref) (s : State) : State :=
  mkState (genre s) (year s) (books s) (loading s) (error s)
          (genreSuggestions s) (yearSuggestions s) b.

(** ** The fetch pipeline (lines 32-58) *)

Definition errorMessage : string :=
  "An error occurred while fetching books. Please try again.".
Definition noDescription : string := "No description available.".

Definition searchUrl (g y : string) : string :=
  "https://openlibrary.org/search.json?q=" +:+ g +:+ "&first_publish_year=" +:+ y.

(** How a request settles: the promise of [axios.get] is rejected, or it is
    fulfilled with a response whose [data] is the parsed body. *)
Inductive response : Type :=
| Rejected
| Resolved (data : jsval).

(** The network answers the search request and the detail request of each
    position of the fetched list. *)
Record network : Type := mkNetwork {
  search : response;
  detail : nat -> response
}.

(** Line 37: [response.data.docs.slice(0, 10)], then [.map] on the result.
    Anything but an array ends in a [TypeError]. *)
Definition fetchedBooks (data : jsval) : option (list jsval) :=
  docs ← get data "docs";
  match docs with
  | VArr l => Some (take 10 l)
  | _ => None
  end.

(** Line 45: [d.description?.value || d.description || '...'] *)
Definition description (data : jsval) : option jsval :=
  d ← get data "description";
  dv ← get_opt d "value";
  Some (js_or (js_or dv d) (VStr noDescription)).

(** Lines 42-46: the object literal built from a fulfilled detail request. *)
Definition merge (book data : jsval) : option jsval :=
  pages ← get data "number_of_pages";
  desc ← description data;
  Some (VObj (<["description" := desc]>
             (<["number_of_pages_median" := pages]> (own_props book)))).

(** Line 41: the URL of a book's detail request.  [None]: reading
    [book.key] or converting it to text throws. *)
Definition detailUrl (book : jsval) : option string :=
  k ← get book "key";
  text ← toStr k;
  Some ("https://openlibrary.org" +:+ text +:+ ".json").

(** Lines 39-51: the value the callback's promise is fulfilled with.
    Building the URL is inside the [try], so is everything after the
    [await]; the [catch] returns [book] itself. *)
Definition withDetails (book : jsval) (r : response) : jsval :=
  match detailUrl book with
  | None => book
  | Some _ =>
      match r with
      | Rejected => book
      | Resolved data => default book (merge book data)
      end
  end.

(** A callback that throws before its request is sent is settled from the
    start; the others wait for the network. *)
Definition startDetail (book : jsval) : option jsval :=
  match detailUrl book with
  | None => Some book
  | Some _ => None
  end.

(** Where a run of [fetchBooks] stands.  [AwaitDetails] is the pending
    [Promise.all]: one slot per fetched book, filled at the book's own index
    when its promise settles. *)
Inductive phase : Type :=
| AwaitSearch
| AwaitDetails (fetched : list jsval) (slots : list (option jsval))
| Finished.

Record machine : Type := mkMachine {
  ui : State;
  pc : phase
}.

(** The requests whose completion moves a run forward. *)
Inductive completion : Type :=
| SearchDone
| DetailDone (i : nat).

(** Lines 33-36: the synchronous prefix of [fetchBooks]. *)
Definition fetchBooks (s : State) : machine :=
  mkMachine (setError None (setLoading true s)) AwaitSearch.

(** Lines 54-57 *)
Definition failed (s : State) : machine :=
  mkMachine (setLoading false (setError (Some errorMessage) s)) Finished.

(** [Promise.all] resolves once every slot is filled; lines 53 and 57. *)
Definition join (s : State) (fetched : list jsval) (slots : list (option jsval)) : machine :=
  match mapM id slots with
  | Some booksWithDetails =>
      mkMachine (setLoading false (setBooks booksWithDetails s)) Finished
  | None => mkMachine s (AwaitDetails fetched slots)
  end.

Definition step (net : network) (m : machine) (e : completion) : option machine :=
  match pc m, e with
  | AwaitSearch, SearchDone =>
      match search net with
      | Rejected => Some (failed (ui m))
      | Resolved data =>
          match fetchedBooks data with
          | None => Some (failed (ui m))
          | Some fetched => Some (join (ui m) fetched (startDetail <$> fetched))
          end
      end
  | AwaitDetails fetched slots, DetailDone i =>
      match slots !! i, fetched !! i with
      | Some None, Some book =>
          Some (join (ui m) fetched
                     (<[i := Some (withDetails book (detail net i))]> slots))
      | _, _ => None
      end
  | _, _ => None
  end.

Fixpoint exec (net : network) (m : machine) (sched : list completion) : option machine :=
  match sched with
  | [] => Some m
  | e :: rest => m' ← step net m e; exec net m' rest
  end.

(** One whole run: the call, then the completions in the order [sched]. *)
Definition run (net : network) (s : State) (sched : list completion) : option machine :=
  exec net (fetchBooks s) sched.

(** *** Closed form of a run

    What a finished run has written, read off the network alone. *)

Definition fetched (net : network) : option (list jsval) :=
  match search net with
  | Rejected => None
  | Resolved data => fetchedBooks data
  end.

Definition enriched (net : network) (l : list jsval) : list jsval :=
  imap (fun i book => withDetails book (detail net i)) l.

Definition outcome (net : network) (s : State) : State :=
  match fetched net with
  | None => ui (failed (ui (fetchBooks s)))
  | Some l => setLoading false (setBooks (enriched net l) (ui (fetchBooks s)))
  end.

(** Requests of a run that have not settled yet. *)
Definition pending (slots : list (option jsval)) : nat :=
  length (filter (fun o => o = None) slots).

Definition inflight (m : machine) : nat :=
  match pc m with
  | AwaitSearch => 11
  | AwaitDetails _ slots => pending slots
  | Finished => 0
  end.

(** Every slot is either still empty or holds its own book's result. *)
Definition slots_inv (net : network) (l : list jsval) (slots : list (option jsval)) : Prop :=
  forall i : nat,
    slots !! i = (fun _ => None) <$> l !! i \/
    slots !! i = (fun book => Some (withDetails book (detail net i))) <$> l !! i.

(** The machine states a run started in [s] can be in. *)
Definition consistent (net : network) (s : State) (m : machine) : Prop :=
  match pc m with
  | AwaitSearch => ui m = ui (fetchBooks s)
  | AwaitDetails l slots =>
      ui m = ui (fetchBooks s) /\ fetched net = Some l /\
      slots_inv net l slots /\ mapM id slots = None
  | Finished => ui m = outcome net s
  end.

(** The item a book becomes: the book itself, or a copy in which only the
    two enrichment fields may differ. *)
Definition same_item (book item : jsval) : Prop :=
  item = book \/
  exists m, item = VObj m /\
    forall name : string,
      name <> "number_of_pages_median" -> name <> "description" ->
      m !! name = own_props book !! name.

(** ** Suggestions and input handlers (lines 14-20, 60-96) *)

Definition popularGenres : list string :=
  [ "Fiction"; "Fantasy"; "Science Fiction"; "Mystery"; "Thriller"; "Romance";
    "Historical Fiction"; "Non-fiction"; "Biography"; "Self-help"; "Horror" ].

(** [String.prototype.toLowerCase] on the letters A-Z; every other
    character is kept. *)
Definition lowerChar (c : ascii) : ascii :=
  let n := nat_of_ascii c in
  if (65 <=? n)%nat && (n <=? 90)%nat then ascii_of_nat (n + 32) else c.

Fixpoint toLowerCase (s : string) : string :=
  match s with
  | EmptyString => EmptyString
  | String c rest => String (lowerChar c) (toLowerCase rest)
  end.

(** [s.startsWith(t)] and [s.includes(t)] *)
Fixpoint startsWith (s t : string) : bool :=
  match t, s with
  | EmptyString, _ => true
  | String _ _, EmptyString => false
  | String c t', String d s' => Ascii.eqb c d && startsWith s' t'
  end.

Fixpoint includes (s t : string) : bool :=
  startsWith s t ||
  match s with
  | EmptyString => false
  | String _ rest => includes rest t
  end.

(** A string in a condition: truthy unless empty. *)
Definition nonEmpty (s : string) : bool := truthy (VStr s).

(** What the suggestion filters are meant to decide: [text] occurs in
    [candidate] when case is ignored. *)
Definition ci_substring (text candidate : string) : Prop :=
  exists pre post : string,
    toLowerCase candidate = pre +:+ toLowerCase text +:+ post.

(** Events of the user interface. *)
Inductive event : Type :=
| GenreChange (text : string)
| YearChange (text : string)
| SelectGenre (suggestion : string)
| SelectYear (suggestion : Z)
| BookClick (book : ref)
| Submit.

Section App.

(** Line 19: [new Date().getFullYear()], read once when the module loads. *)
Variable currentYear : Z.

(** Line 20 *)
Definition recentYears : list Z :=
  (fun i : nat => currentYear - Z.of_nat i) <$> seq 0 10.

Definition handleGenreChange (text : string) (s : State) : State :=
  let s := setGenre text s in
  if nonEmpty text then
    setGenreSuggestions
      (List.filter (fun g => includes (toLowerCase g) (toLowerCase text))
                   popularGenres) s
  else setGenreSuggestions [] s.

Definition handleYearChange (text : string) (s : State) : State :=
  let s := setYear text s in
  if nonEmpty text then
    setYearSuggestions
      (List.filter (fun y => includes (toString y) text) recentYears) s
  else setYearSuggestions [] s.

Definition selectGenre (selectedGenre : string) (s : State) : State :=
  setGenreSuggestions [] (setGenre selectedGenre s).

Definition selectYear (selectedYear : Z) (s : State) : State :=
  setYearSuggestions [] (setYear (toString selectedYear) s).

(** [book === selectedBook] *)
Definition isSelected (book : ref) (s : State) : bool :=
  match selectedBook s with
  | Some b => Nat.eqb book b
  | None => false
  end.

Definition handleBookClick (book : ref) (s : State) : State :=
  setSelectedBook (if isSelected book s then None else Some book) s.

(** The state updates an event's handler makes. *)
Definition handle (e : event) (s : State) : State :=
  match e with
  | GenreChange text => handleGenreChange text s
  | YearChange text => handleYearChange text s
  | SelectGenre g => selectGenre g s
  | SelectYear y => selectYear y s
  | BookClick b => handleBookClick b s
  | Submit => s
  end.

(** Lines 60-64.  After a render React runs the effect again when an entry
    of the dependency array [[genre, year]] differs from the one of the
    previous render. *)
Definition depsChanged (prev cur : State) : bool :=
  negb (String.eqb (genre prev) (genre cur) && String.eqb (year prev) (year cur)).

Definition effectFetches (s : State) : bool :=
  nonEmpty (genre s) && nonEmpty (year s).

(** One event, up to the point where control returns to the event loop:
    the state then, and the search request sent if [fetchBooks] was
    called.  The button calls [fetchBooks] itself (line 152); the other
    events reach it through the effect. *)
Definition dispatch (e : event) (s : State) : State * option string :=
  match e with
  | Submit => (ui (fetchBooks s), Some (searchUrl (genre s) (year s)))
  | _ =>
      let s' := handle e s in
      if depsChanged s s' && effectFetches s'
      then (ui (fetchBooks s'), Some (searchUrl (genre s') (year s')))
      else (s', None)
  end.

End App.

(** The characters a decimal numeral is written with. *)
Definition decimalChar (c : ascii) : bool :=
  let n := nat_of_ascii c in
  ((48 <=? n)%nat && (n <=? 57)%nat) || (n =? 45)%nat.

Fixpoint allChars (p : ascii -> bool) (s : string) : bool :=
  match s with
  | EmptyString => true
  | String c rest => p c && allChars p rest
  end.

(** Position [i] of the fetched list had its detail request sent. *)
Definition requested (l : list jsval) (i : nat) : Prop :=
  startDetail <$> l !! i = Some None.

(** ** Sample data *)

Definition obj (fields : list (string * jsval)) : jsval :=
  VObj (list_to_map fields).

Definition bookA : jsval :=
  obj [("key", VStr "/works/OL1W"); ("title", VStr "A");
       ("author_name", VArr [VStr "Ann"]); ("first_publish_year", VNum 1999);
       ("number_of_pages_median", VNum 320)].
Definition bookB : jsval :=
  obj [("key", VStr "/works/OL2W"); ("title", VStr "B");
       ("author_name", VArr [VStr "Bo"; VStr "Bea"]); ("first_publish_year", VNum 1999)].
Definition bookC : jsval :=
  obj [("key", VStr "/works/OL3W"); ("title", VStr "C");
       ("first_publish_year", VNum 1999); ("cover_i", VNum 77)].

Definition docsABC : list jsval := [bookA; bookB; bookC].
Definition searchABC : jsval := obj [("docs", VArr docsABC); ("numFound", VNum 3)].

(** A's details carry a wrapped description and no page count, B's request
    fails, C's details carry both fields. *)
Definition detailsABC (i : nat) : response :=
  match i with
  | 0%nat => Resolved (obj [("description", obj [("type", VStr "/type/text"); ("value", VStr "text")])])
  | 1%nat => Rejected
  | _ => Resolved (obj [("number_of_pages", VNum 200); ("description", VStr "text")])
  end.

Definition netABC : network := mkNetwork (Resolved searchABC) detailsABC.
Definition netDown : network := mkNetwork Rejected detailsABC.

(** A search that finds nothing, and one that finds twelve works. *)
Definition netNone : network :=
  mkNetwork (Resolved (obj [("docs", VArr []); ("numFound", VNum 0)])) detailsABC.

Definition work (n : Z) : jsval :=
  obj [("key", VStr ("/works/OL" +:+ toString n +:+ "W")); ("title", VStr (toString n))].
Definition netTwelve : network :=
  mkNetwork (Resolved (obj [("docs", VArr (work <$> [1; 2; 3; 4; 5; 6; 7; 8; 9; 10; 11; 12]))]))
            (fun _ => Rejected).

(** C's detail request completes first. *)
Definition cFirst : list completion :=
  [SearchDone; DetailDone 2; DetailDone 0; DetailDone 1].

(** A state left by an earlier successful search. *)
Definition shownB : State :=
  mkState "Fantasy" "1999" [bookB] false None [] [] None.

(** Typing "Fantasy" and then "2024" in 2026, from the initial state. *)
Definition typedFantasy : State :=
  fst (dispatch 2026 (GenreChange "Fantasy") initialState).
Definition typedFantasy2024 : State :=
  fst (dispatch 2026 (YearChange "2024") typedFantasy).

(** ** What is rendered (lines 102-203) *)

(** The child [a && <p>Pages: {a}</p>] (lines 183-187): the paragraph when
    [a] is truthy, else the value [a] itself. *)
Inductive slot : Type :=
| Shown (child : jsval)
| Skipped (v : jsval).

(** One [<li>] of the result list (lines 164-195), by the values of its
    expressions; the class names follow [cardExpanded]. *)
Record Card : Type := mkCard {
  cardKey : jsval;
  cardExpanded : bool;
  coverSrc : string;
  coverAlt : string;
  cardTitle : jsval;
  cardAuthors : string;
  cardPublished : jsval;
  cardPages : slot;
  cardDescription : string
}.

(** Line 178: [book.author_name ? book.author_name.join(', ') : '...'].
    Only arrays have [join]: calling it on another truthy value throws, and
    so does the join of an element that has no text. *)
Definition authorsLine (a : jsval) : option string :=
  if truthy a then
    match a with
    | VArr l => joinWith toStr ", " l
    | _ => None
    end
  else Some "Unknown Author".

(** Line 171: the cover's address; the id is converted only when truthy. *)
Definition coverAddress (c : jsval) : option string :=
  if truthy c then
    text ← toStr c;
    Some ("https://covers.openlibrary.org/b/id/" +:+ text +:+ "-M.jpg")
  else Some "/placeholder.svg?height=200&width=130".

(** Lines 189-191: [typeof d === 'string' ? d : '...'] *)
Definition shownDescription (d : jsval) : string :=
  match d with
  | VStr text => text
  | _ => noDescription
  end.

(** [None] is a [TypeError] thrown while the expressions of the card are
    evaluated.  The [key] is handed to React as it is. *)
Definition renderCard (expanded : bool) (book : jsval) : option Card :=
  k ← get book "key";
  c ← get book "cover_i";
  src ← coverAddress c;
  t ← get book "title";
  title ← toStr t;
  a ← get book "author_name";
  authors ← authorsLine a;
  y ← get book "first_publish_year";
  p ← get book "number_of_pages_median";
  d ← get book "description";
  Some (mkCard k expanded src ("Cover of " +:+ title) t authors
          (js_or y (VStr "Unknown"))
          (if truthy p then Shown p else Skipped p)
          (shownDescription d)).

(** Books on which the expressions of a card throw: the entry is [null] or
    [undefined]; its cover id is truthy and has no text; its title has no
    text; its [author_name] is truthy and is not an array, or is an array
    with an element that has no text. *)
Definition breaksRender (book : jsval) : Prop :=
  nullish book = true \/
  (exists c, own_props book !! "cover_i" = Some c /\ truthy c = true /\ toStr c = None) \/
  (exists t, own_props book !! "title" = Some t /\ toStr t = None) \/
  (exists a, own_props book !! "author_name" = Some a /\ truthy a = true /\
             ((forall l, a <> VArr l) \/
              exists l, a = VArr l /\ joinWith toStr ", " l = None)).

(** The component's output.  A dropdown, the error line and the result list
    are present only when their guards hold (lines 115, 137, 157-159). *)
Record View : Type := mkView {
  genreField : string;
  genreDropdown : option (list string);
  yearField : string;
  yearDropdown : option (list Z);
  loadingLine : bool;
  errorLine : option string;
  resultCards : option (list Card)
}.

Definition whenNonEmpty {A} (l : list A) : option (list A) :=
  match l with
  | [] => None
  | _ => Some l
  end.

(** [refOf i] is the identity of [books[i]] under [===]. *)
Definition render (refOf : nat -> ref) (s : State) : option View :=
  cards ← mapM id (imap (fun i book => renderCard (isSelected (refOf i) s) book) (books s));
  Some (mkView (genre s) (whenNonEmpty (genreSuggestions s))
               (year s) (whenNonEmpty (yearSuggestions s))
               (loading s)
               (e ← error s; if nonEmpty e then Some e else None)
               (whenNonEmpty cards)).

(** ** The component as a whole

    Calls of [fetchBooks] overlap: nothing cancels a run when another one is
    started, and all of them write the same state.  [runs] holds every run
    started so far, in the order of their calls; [nets r] is what the network
    answers to run [r]. *)
Record app : Type := mkApp {
  st : State;
  runs : list phase
}.

Inductive action : Type :=
| User (e : event)
| Complete (r : nat) (c : completion).

(** After the first render the effect runs once, with both fields empty. *)
Definition mounted : app := mkApp initialState [].

Definition act (currentYear : Z) (nets : nat -> network) (a : app) (x : action) : option app :=
  match x with
  | User e =>
      let '(s', request) := dispatch currentYear e (st a) in
      Some (mkApp s' (runs a ++ match request with
                                | Some _ => [AwaitSearch]
                                | None => []
                                end))
  | Complete r c =>
      p ← runs a !! r;
      m' ← step (nets r) (mkMachine (st a) p) c;
      Some (mkApp (ui m') (<[r := pc m']> (runs a)))
  end.

Fixpoint acts (currentYear : Z) (nets : nat -> network) (a : app) (xs : list action) : option app :=
  match xs with
  | [] => Some a
  | x :: rest => a' ← act currentYear nets a x; acts currentYear nets a' rest
  end.

(** What holds of a run's private data at any time. *)
Definition phase_ok (net : network) (p : phase) : Prop :=
  match p with
  | AwaitDetails l slots =>
      fetched net = Some l /\ slots_inv net l slots /\ mapM id slots = None
  | _ => True
  end.

Definition runs_ok (nets : nat -> network) (rs : list phase) : Prop :=
  forall r p, rs !! r = Some p -> phase_ok (nets r) p.

(** A detail body that is a page of text, not JSON. *)
Definition htmlPage : jsval := VStr "<html>Not Found</html>".

(** The sample search with a [null] entry in second place. *)
Definition netHole : network :=
  mkNetwork (Resolved (obj [("docs", VArr [bookA; VNull; bookC])])) detailsABC.


(** Details whose description is an object with an empty [value]. *)
Definition wrappedEmpty : jsval :=
  obj [("description", obj [("type", VStr "/type/text"); ("value", VStr "")])].

(** The card of A merged with [wrappedEmpty]. *)
Definition cardWrappedEmpty : Card :=
  mkCard (VStr "/works/OL1W") false "/placeholder.svg?height=200&width=130"
         "Cover of A" (VStr "A") "Ann" (VNum 1999) (Skipped VUndef)
         "No description available.".

(** Three books on screen, the second one selected; the objects are numbered
    by their place in the list. *)
Definition shownABC : State :=
  mkState "Fantasy" "1999" [bookA; bookB; bookC] false None [] [] (Some 1%nat).

(** The cards of [shownABC] after a click on the first one. *)
Definition cardsClickedA : list Card :=
  [mkCard (VStr "/works/OL1W") true "/placeholder.svg?height=200&width=130"
     "Cover of A" (VStr "A") "Ann" (VNum 1999) (Shown (VNum 320))
     "No description available.";
   mkCard (VStr "/works/OL2W") false "/placeholder.svg?height=200&width=130"
     "Cover of B" (VStr "B") "Bo, Bea" (VNum 1999) (Skipped VUndef)
     "No description available.";
   mkCard (VStr "/works/OL3W") false "https://covers.openlibrary.org/b/id/77-M.jpg"
     "Cover of C" (VStr "C") "Unknown Author" (VNum 1999) (Skipped VUndef)
     "No description available."].

(** Two overlapping runs: the first search finds A, B and C, the second one,
    started by the button while the first is in flight, is rejected. *)
Definition netsOverlap (r : nat) : network :=
  match r with
  | 0%nat => netABC
  | _ => netDown
  end.

Definition overlapTrace : list action :=
  [User (GenreChange "Fantasy"); User (YearChange "1999"); User Submit;
   Complete 0 SearchDone; Complete 0 (DetailDone 0); Complete 0 (DetailDone 1);
   Complete 1 SearchDone].

Definition overlapBefore : app :=
  default mounted (acts 2026 netsOverlap mounted overlapTrace).
Definition overlapAfter : app :=
  default mounted (act 2026 netsOverlap overlapBefore (Complete 0 (DetailDone 2))).

(** The year is set; then "Fantasy" is typed a letter at a time. *)
Definition yearTyped : app :=
  default mounted (act 2026 netsOverlap mounted (User (YearChange "1999"))).
Definition keystrokes : list string :=
  ["F"; "Fa"; "Fan"; "Fant"; "Fanta"; "Fantas"; "Fantasy"].

(** The card of B, collapsed. *)
Definition cardB : Card :=
  mkCard (VStr "/works/OL2W") false "/placeholder.svg?height=200&width=130"
         "Cover of B" (VStr "B") "Bo, Bea" (VNum 1999) (Skipped VUndef)
         "No description available.".

(** ** Lemmas on the pipeline *)

Lemma mapM_id_Some (slots : list (option jsval)) (vals : list jsval) :
  mapM id slots = Some vals -> slots = Some <$> vals.
Proof.
  intros H. apply (mapM_fmap_Some_inv id Some) in H; [done|].
  intros x y Hy. symmetry. exact Hy.
Qed.

Lemma mapM_id_None (slots : list (option jsval)) :
  mapM id slots = None -> exists i, slots !! i = Some None.
Proof.
  induction slots as [|o slots IH]; simpl; [done|].
  destruct o as [v|].
  - intros H. destruct (mapM id slots) eqn:E; [done|].
    destruct IH as [i Hi]; [done|]. by exists (S i).
  - intros _. by exists 0%nat.
Qed.

Lemma slots_inv_start net (l : list jsval) :
  slots_inv net l (startDetail <$> l).
Proof.
  intros i. rewrite list_lookup_fmap.
  destruct (l !! i) as [book|]; simpl; [|by left].
  unfold startDetail, withDetails.
  destruct (detailUrl book); [by left | by right].
Qed.

Lemma slots_inv_insert net (l : list jsval) slots i book :
  slots_inv net l slots ->
  slots !! i = Some None -> l !! i = Some book ->
  slots_inv net l (<[i := Some (withDetails book (detail net i))]> slots).
Proof.
  intros Hinv Hs Hl j. destruct (decide (i = j)) as [<-|Hne].
  - right. rewrite list_lookup_insert_eq by (by eapply lookup_lt_Some).
    by rewrite Hl.
  - rewrite list_lookup_insert_ne by done. apply Hinv.
Qed.

Lemma slots_inv_full net (l : list jsval) (vals : list jsval) :
  slots_inv net l (Some <$> vals) -> vals = enriched net l.
Proof.
  intros Hinv. apply list_eq. intros i. unfold enriched.
  rewrite list_lookup_imap.
  destruct (Hinv i) as [H|H]; rewrite list_lookup_fmap in H;
    destruct (vals !! i), (l !! i); simpl in *; congruence.
Qed.

Lemma join_consistent net s (l : list jsval) slots :
  fetched net = Some l -> slots_inv net l slots ->
  consistent net s (join (ui (fetchBooks s)) l slots).
Proof.
  intros Hf Hinv. unfold join, consistent.
  destruct (mapM id slots) as [vals|] eqn:E; simpl.
  - apply mapM_id_Some in E. subst slots.
    apply slots_inv_full in Hinv. unfold outcome. by rewrite Hf, Hinv.
  - done.
Qed.

Lemma step_consistent net s m e m' :
  consistent net s m -> step net m e = Some m' -> consistent net s m'.
Proof.
  unfold consistent at 1, step. destruct m as [u p]; simpl.
  destruct p as [|l slots|]; destruct e as [|i]; try done.
  - intros -> H. unfold fetched in *.
    assert (Hout : fetched net = None -> consistent net s (failed (ui (fetchBooks s)))).
    { intros Hn. unfold consistent, outcome. simpl. by rewrite Hn. }
    unfold fetched in Hout.
    destruct (search net) as [|data] eqn:Es.
    + simplify_eq. by apply Hout.
    + destruct (fetchedBooks data) as [l|] eqn:Ef; simplify_eq.
      * apply join_consistent; [unfold fetched; by rewrite Es|].
        apply slots_inv_start.
      * by apply Hout.
  - intros (-> & Hf & Hinv & _) H.
    destruct (slots !! i) as [[v|]|] eqn:Es; try done.
    destruct (l !! i) as [book|] eqn:El; try done.
    simplify_eq. apply join_consistent; [done|].
    by apply slots_inv_insert.
Qed.

Lemma exec_consistent net s sched : forall m m',
  consistent net s m -> exec net m sched = Some m' -> consistent net s m'.
Proof.
  induction sched as [|e rest IH]; simpl; intros m m' Hc H.
  - by simplify_eq.
  - destruct (step net m e) as [m1|] eqn:E; simpl in H; [|done].
    eapply IH; [|done]. by eapply step_consistent.
Qed.

Lemma run_consistent net s sched m :
  run net s sched = Some m -> consistent net s m.
Proof. apply exec_consistent. done. Qed.

(** A finished run has written [outcome], whatever the order of the
    completions was. *)
Lemma run_finished net s sched m :
  run net s sched = Some m -> pc m = Finished -> ui m = outcome net s.
Proof.
  intros H Hpc. apply run_consistent in H. unfold consistent in H.
  by rewrite Hpc in H.
Qed.

(** *** Progress and termination *)

Lemma pending_cons (o : option jsval) slots :
  pending (o :: slots) =
  match o with None => S (pending slots) | Some _ => pending slots end.
Proof.
  unfold pending. rewrite filter_cons.
  destruct o; case_decide; simpl; congruence.
Qed.

Lemma pending_insert slots : forall (i : nat) (v : jsval),
  slots !! i = Some None ->
  S (pending (<[i := Some v]> slots)) = pending slots.
Proof.
  induction slots as [|o slots IH]; intros [|i] v H; simpl in *; try done.
  - simplify_eq. by rewrite !pending_cons.
  - rewrite !pending_cons. destruct o; by rewrite <- (IH i v).
Qed.

Lemma pending_le_length slots : (pending slots <= length slots)%nat.
Proof. unfold pending. apply length_filter. Qed.

Lemma fetchedBooks_length data l :
  fetchedBooks data = Some l -> (length l <= 10)%nat.
Proof.
  unfold fetchedBooks. destruct (get data "docs") as [[]|]; simpl; try done.
  intros [= <-]. rewrite length_take. lia.
Qed.

Lemma fetched_length net l : fetched net = Some l -> (length l <= 10)%nat.
Proof.
  unfold fetched. destruct (search net); [done|]. apply fetchedBooks_length.
Qed.

Lemma inflight_join s l slots :
  (inflight (join s l slots) <= pending slots)%nat.
Proof.
  unfold join, inflight. destruct (mapM id slots); simpl; lia.
Qed.

(** Each completion settles one request for good. *)
Lemma step_inflight net m e m' :
  step net m e = Some m' -> (inflight m' < inflight m)%nat.
Proof.
  unfold step. destruct m as [u p]; simpl.
  destruct p as [|l slots|]; destruct e as [|i]; try done.
  - unfold inflight at 2; simpl.
    destruct (search net) as [|data]; [intros [= <-]; unfold inflight; simpl; lia|].
    destruct (fetchedBooks data) as [l|] eqn:Ef; intros [= <-];
      [|unfold inflight; simpl; lia].
    apply fetchedBooks_length in Ef.
    pose proof (inflight_join u l (startDetail <$> l)).
    pose proof (pending_le_length (startDetail <$> l)).
    rewrite length_fmap in *. lia.
  - destruct (slots !! i) as [[v|]|] eqn:Es; try done.
    destruct (l !! i) as [book|]; try done. intros [= <-].
    unfold inflight at 2; simpl.
    pose proof (inflight_join u l (<[i:=Some (withDetails book (detail net i))]> slots)).
    pose proof (pending_insert slots i (withDetails book (detail net i)) Es). lia.
Qed.

Lemma exec_inflight net sched : forall m m',
  exec net m sched = Some m' -> (length sched + inflight m' <= inflight m)%nat.
Proof.
  induction sched as [|e rest IH]; simpl; intros m m' H.
  - simplify_eq. lia.
  - destruct (step net m e) as [m1|] eqn:E; simpl in H; [|done].
    apply IH in H. apply step_inflight in E. lia.
Qed.

(** While a run is not finished some request is in flight, and its
    completion is a step of the run. *)
Lemma step_progress net s m :
  consistent net s m -> pc m <> Finished ->
  exists e m', step net m e = Some m'.
Proof.
  unfold consistent, step. destruct m as [u p]; simpl.
  destruct p as [|l slots|]; [| |done]; intros Hc _.
  - exists SearchDone.
    destruct (search net) as [|data]; [eauto|].
    destruct (fetchedBooks data); eauto.
  - destruct Hc as (_ & _ & Hinv & Hnone).
    apply mapM_id_None in Hnone as [i Hi]. exists (DetailDone i).
    rewrite Hi. destruct (Hinv i) as [H|H]; rewrite Hi in H;
      destruct (l !! i); simpl in H; try done; eauto.
Qed.

(** The request of any still empty slot may be the next to complete. *)
Lemma detail_enabled net s u l slots i :
  consistent net s (mkMachine u (AwaitDetails l slots)) ->
  slots !! i = Some None ->
  exists m', step net (mkMachine u (AwaitDetails l slots)) (DetailDone i) = Some m'.
Proof.
  unfold consistent, step; simpl. intros (_ & _ & Hinv & _) Hi.
  rewrite Hi. destruct (Hinv i) as [H|H]; rewrite Hi in H;
    destruct (l !! i); simpl in H; try done; eauto.
Qed.

(** Every run that is under way can be brought to its end. *)
Lemma exec_completes net s : forall (n : nat) m,
  (inflight m <= n)%nat -> consistent net s m ->
  exists sched m', exec net m sched = Some m' /\ pc m' = Finished.
Proof.
  induction n as [|n IH]; intros m Hn Hc.
  - exists [], m. split; [done|].
    destruct m as [u [|l slots|]]; unfold inflight in Hn; simpl in *; [lia| |done].
    destruct Hc as (_ & _ & _ & Hnone).
    apply mapM_id_None in Hnone as [i Hi].
    assert (0 < pending slots)%nat; [|lia].
    rewrite <- (pending_insert slots i VUndef Hi). lia.
  - assert (Hdec : pc m = Finished \/ pc m <> Finished)
      by (destruct (pc m); [right|right|left]; done).
    destruct Hdec as [Hf|Hf].
    + by exists [], m.
    + destruct (step_progress net s m Hc Hf) as (e & m1 & Hstep).
      destruct (IH m1) as (sched & m' & Hex & Hfin).
      * apply step_inflight in Hstep. lia.
      * by eapply step_consistent.
      * exists (e :: sched), m'. simpl. by rewrite Hstep.
Qed.

(** ** Lemmas on strings *)

Lemma startsWith_spec (t : string) : forall s : string,
  startsWith s t = true <-> exists post, s = t +:+ post.
Proof.
  induction t as [|c t IH]; intros s; simpl.
  - split; [intros _; by exists s | by destruct s].
  - destruct s as [|d s]; simpl.
    + split; [done | by intros [post H]].
    + rewrite andb_true_iff, IH. split.
      * intros [Hc [post ->]]. apply Ascii.eqb_eq in Hc as ->. by exists post.
      * intros [post [= -> ->]]. split; [apply Ascii.eqb_refl | by exists post].
Qed.

Lemma includes_spec (t s : string) :
  includes s t = true <-> exists pre post, s = pre +:+ t +:+ post.
Proof.
  induction s as [|d s IH].
  - cbn [includes]. rewrite orb_false_r, startsWith_spec. split.
    + intros [post H]. by exists EmptyString, post.
    + intros ([|c pre] & post & H); simpl in H; [by exists post | done].
  - cbn [includes]. rewrite orb_true_iff, startsWith_spec, IH. split.
    + intros [[post H]|(pre & post & H)].
      * by exists EmptyString, post.
      * exists (String d pre), post. simpl. by rewrite H.
    + intros ([|c pre] & post & H); simpl in H.
      * left. by exists post.
      * right. injection H as -> ->. by exists pre, post.
Qed.

Lemma toLowerCase_app (a b : string) :
  toLowerCase (a +:+ b) = toLowerCase a +:+ toLowerCase b.
Proof. induction a as [|c a IH]; simpl; [done | by rewrite IH]. Qed.

Lemma allChars_app p (a b : string) :
  allChars p (a +:+ b) = allChars p a && allChars p b.
Proof. induction a as [|c a IH]; simpl; [done | by rewrite IH, andb_assoc]. Qed.

Lemma lowerChar_decimal (c : ascii) :
  decimalChar (lowerChar c) = true -> lowerChar c = c.
Proof. destruct c as [[] [] [] [] [] [] [] []]; vm_compute; congruence. Qed.

Lemma decimalChar_lower (c : ascii) : decimalChar c = true -> lowerChar c = c.
Proof. destruct c as [[] [] [] [] [] [] [] []]; vm_compute; congruence. Qed.

Lemma toLowerCase_decimal (s : string) :
  allChars decimalChar s = true -> toLowerCase s = s.
Proof.
  induction s as [|c s IH]; simpl; [done|].
  rewrite andb_true_iff. intros [Hc Hs].
  by rewrite (decimalChar_lower c Hc), IH.
Qed.

Lemma toLowerCase_decimal_inv (s : string) :
  allChars decimalChar (toLowerCase s) = true -> toLowerCase s = s.
Proof.
  induction s as [|c s IH]; simpl; [done|].
  rewrite andb_true_iff. intros [Hc Hs].
  by rewrite (lowerChar_decimal c Hc), IH.
Qed.

Lemma string_of_uint_decimal (d : Decimal.uint) :
  allChars decimalChar (NilEmpty.string_of_uint d) = true.
Proof. induction d; simpl; done. Qed.

Lemma toString_decimal (n : Z) : allChars decimalChar (toString n) = true.
Proof.
  unfold toString, NilZero.string_of_int, NilZero.string_of_uint.
  destruct (Z.to_int n) as [d|d]; destruct d; simpl;
    try done; apply string_of_uint_decimal.
Qed.

(** On a numeral, containment and containment up to case are the same. *)
Lemma includes_toString (n : Z) (text : string) :
  includes (toString n) text = true <-> ci_substring text (toString n).
Proof.
  unfold ci_substring.
  rewrite includes_spec, (toLowerCase_decimal _ (toString_decimal n)). split.
  - intros (pre & post & H).
    pose proof (toString_decimal n) as Hd. rewrite H in Hd.
    rewrite !allChars_app, !andb_true_iff in Hd. destruct Hd as (_ & Ht & _).
    rewrite (toLowerCase_decimal _ Ht). eauto.
  - intros (pre & post & H).
    pose proof (toString_decimal n) as Hd. rewrite H in Hd.
    rewrite !allChars_app, !andb_true_iff in Hd. destruct Hd as (_ & Ht & _).
    rewrite (toLowerCase_decimal_inv _ Ht) in H. eauto.
Qed.

(** ** Lemmas on property reads and on the merge *)

Lemma get_nullish v name : nullish v = true -> get v name = None.
Proof. by destruct v. Qed.

Lemma get_object v name :
  nullish v = false -> get v name = Some (default VUndef (own_props v !! name)).
Proof. by destruct v. Qed.

Lemma get_opt_total v name : exists w, get_opt v name = Some w.
Proof. destruct v; simpl; eauto. Qed.

Lemma description_total data :
  nullish data = false -> exists d, description data = Some d.
Proof.
  intros H. unfold description. rewrite (get_object _ _ H). simpl.
  destruct (get_opt_total (default VUndef (own_props data !! "description")) "value")
    as [w ->]. simpl. eauto.
Qed.

(** A fulfilled detail request whose payload can be read: the callback
    returns the object literal of lines 42-46. *)
Lemma detailUrl_nullish book : nullish book = true -> detailUrl book = None.
Proof. intros H. unfold detailUrl. by rewrite (get_nullish _ _ H). Qed.

(** A request that was sent is the request of an entry that can be read. *)
Lemma detailUrl_sent book : is_Some (detailUrl book) -> nullish book = false.
Proof.
  intros [url H]. destruct (nullish book) eqn:Hn; [|done].
  by rewrite (detailUrl_nullish _ Hn) in H.
Qed.

Lemma withDetails_resolved book data :
  is_Some (detailUrl book) -> nullish data = false ->
  exists desc,
    description data = Some desc /\
    withDetails book (Resolved data) =
    VObj (<["description" := desc]>
         (<["number_of_pages_median" :=
              default VUndef (own_props data !! "number_of_pages")]>
            (own_props book))).
Proof.
  intros [url Hb] Hd. destruct (description_total data Hd) as [desc Hdesc].
  exists desc. split; [done|]. unfold withDetails, merge.
  rewrite Hb, (get_object data _ Hd). simpl.
  by rewrite Hdesc.
Qed.

Lemma withDetails_rejected book : withDetails book Rejected = book.
Proof. unfold withDetails. by destruct (detailUrl book). Qed.

Lemma withDetails_unsent book r : detailUrl book = None -> withDetails book r = book.
Proof. intros H. unfold withDetails. by rewrite H. Qed.

Lemma withDetails_nullish book r : nullish book = true -> withDetails book r = book.
Proof. intros H. by apply withDetails_unsent, detailUrl_nullish. Qed.

Lemma withDetails_unreadable book data :
  nullish data = true -> withDetails book (Resolved data) = book.
Proof.
  intros Hd. unfold withDetails, merge. destruct (detailUrl book); [|done].
  by rewrite (get_nullish data _ Hd).
Qed.

Lemma withDetails_same_item book r : same_item book (withDetails book r).
Proof.
  destruct (detailUrl book) as [url|] eqn:Hb; [|left; by apply withDetails_unsent].
  destruct r as [|data]; [left; apply withDetails_rejected|].
  destruct (nullish data) eqn:Hd.
  - left. by apply withDetails_unreadable.
  - destruct (withDetails_resolved book data (mk_is_Some _ _ Hb) Hd) as (desc & _ & ->).
    right. eexists. split; [done|]. intros name H1 H2.
    by rewrite !lookup_insert_ne.
Qed.

Lemma exec_app net sched1 : forall m sched2,
  exec net m (sched1 ++ sched2) = m' ← exec net m sched1; exec net m' sched2.
Proof.
  induction sched1 as [|e rest IH]; intros m sched2; simpl; [done|].
  destruct (step net m e); simpl; [apply IH | done].
Qed.

(** Whatever has completed so far and in whatever order, the run can be
    completed, within eleven completions in all. *)
Lemma run_completes net s sched m :
  run net s sched = Some m ->
  (length sched <= 11)%nat /\
  exists rest m', run net s (sched ++ rest) = Some m' /\ pc m' = Finished.
Proof.
  intros H. split.
  - apply exec_inflight in H. unfold inflight at 2 in H. simpl in H. lia.
  - destruct (exec_completes net s (inflight m) m) as (rest & m' & Hex & Hf);
      [lia | by eapply run_consistent |].
    exists rest, m'. unfold run in *. by rewrite exec_app, H.
Qed.

Lemma fetched_docs net data docs :
  search net = Resolved data -> get data "docs" = Some (VArr docs) ->
  fetched net = Some (take 10 docs).
Proof. intros Hs Hd. unfold fetched, fetchedBooks. by rewrite Hs, Hd. Qed.

Lemma outcome_success net s l :
  fetched net = Some l ->
  books (outcome net s) = enriched net l /\
  error (outcome net s) = None /\ loading (outcome net s) = false.
Proof. intros H. unfold outcome. by rewrite H. Qed.

Lemma outcome_failure net s :
  fetched net = None ->
  books (outcome net s) = books s /\
  error (outcome net s) = Some errorMessage /\ loading (outcome net s) = false.
Proof. intros H. unfold outcome. by rewrite H. Qed.

Lemma length_enriched net l : length (enriched net l) = length l.
Proof. unfold enriched. apply length_imap. Qed.

Lemma lookup_enriched net l i :
  enriched net l !! i = (fun book => withDetails book (detail net i)) <$> l !! i.
Proof. unfold enriched. apply list_lookup_imap. Qed.


Lemma mapM_id_pending (slots : list (option jsval)) i :
  slots !! i = Some None -> mapM id slots = None.
Proof.
  intros Hi. destruct (mapM id slots) as [vals|] eqn:E; [|done].
  apply mapM_id_Some in E. subst slots. rewrite list_lookup_fmap in Hi.
  by destruct (vals !! i).
Qed.

(** The detail requests may complete in any order. *)
Lemma exec_any_order net s (l : list jsval) : forall order slots,
  slots_inv net l slots -> NoDup order ->
  (forall i, i ∈ order <-> slots !! i = Some None) ->
  exists m, exec net (join (ui (fetchBooks s)) l slots) (DetailDone <$> order) = Some m /\
            pc m = Finished.
Proof.
  induction order as [|i order IH]; intros slots Hinv Hnd Hin.
  - eexists. split; [done|]. unfold join.
    destruct (mapM id slots) eqn:E; [done|].
    apply mapM_id_None in E as [i Hi]. apply Hin in Hi. by apply elem_of_nil in Hi.
  - assert (Hi : slots !! i = Some None) by (apply Hin; left).
    apply NoDup_cons in Hnd as [Hni Hnd].
    assert (exists book, l !! i = Some book) as [book Hb].
    { destruct (Hinv i) as [H|H]; rewrite Hi in H; destruct (l !! i); by eauto. }
    destruct (IH (<[i := Some (withDetails book (detail net i))]> slots))
      as (m & Hex & Hf); [by apply slots_inv_insert | done | |].
    + intros j. destruct (decide (i = j)) as [<-|Hne].
      * rewrite list_lookup_insert_eq by (by eapply lookup_lt_Some).
        split; [done | by intros [=]].
      * rewrite list_lookup_insert_ne by done. rewrite <- Hin.
        rewrite elem_of_cons. split; [by right | by intros [->|?]].
    + exists m. split; [|done]. simpl. unfold join at 1.
      rewrite (mapM_id_pending _ _ Hi). unfold step. simpl.
      by rewrite Hi, Hb.
Qed.

Lemma run_any_order net s l order :
  fetched net = Some l -> NoDup order ->
  (forall i, i ∈ order <-> requested l i) ->
  exists m, run net s (SearchDone :: (DetailDone <$> order)) = Some m /\
            pc m = Finished.
Proof.
  intros Hf Hnd Hin.
  destruct (exec_any_order net s l order (startDetail <$> l)) as (m & Hex & Hfin);
    [apply slots_inv_start | done | |].
  - intros i. rewrite Hin. unfold requested. by rewrite list_lookup_fmap.
  - exists m. split; [|done]. unfold run. simpl. unfold step at 1. simpl.
    unfold fetched in Hf. destruct (search net) as [|data]; [done|].
    by rewrite Hf.
Qed.

(** ** The fetch pipeline: order, partial enrichment, failure *)

(** C1.  When the search request is fulfilled with a [docs] array, the run
    reads only its first ten entries, and the list it publishes has, at each
    position, the item made from the entry at that position (the entry itself,
    or a copy that differs at most in the two enrichment fields).  This holds
    for every order in which the detail requests complete: each order is a
    run, and every finished run has published the same list. *)
Theorem fetch_keeps_search_order net s data docs :
  search net = Resolved data ->
  get data "docs" = Some (VArr docs) ->
  let published :=
    imap (fun i book => withDetails book (detail net i)) (take 10 docs) in
  length published = Nat.min 10 (length docs) /\
  (forall i book, take 10 docs !! i = Some book ->
     exists item, published !! i = Some item /\ same_item book item) /\
  (forall order, NoDup order ->
     (forall i, i ∈ order <-> requested (take 10 docs) i) ->
     exists m, run net s (SearchDone :: (DetailDone <$> order)) = Some m /\
               pc m = Finished /\ books (ui m) = published) /\
  (forall sched m, run net s sched = Some m -> pc m = Finished ->
     books (ui m) = published).
Proof.
  intros Hs Hd published.
  pose proof (fetched_docs net data docs Hs Hd) as Hf.
  assert (Hfin : forall sched m, run net s sched = Some m -> pc m = Finished ->
                                 books (ui m) = published).
  { intros sched m Hrun Hpc. rewrite (run_finished _ _ _ _ Hrun Hpc).
    by destruct (outcome_success net s _ Hf) as (-> & _). }
  repeat split.
  - unfold published. rewrite length_imap, length_take. lia.
  - intros i book Hi. unfold published. rewrite list_lookup_imap, Hi. simpl.
    eexists. split; [done|]. apply withDetails_same_item.
  - intros order Hnd Hin.
    destruct (run_any_order net s _ order Hf Hnd Hin) as (m & Hrun & Hpc).
    exists m. eauto.
  - exact Hfin.
Qed.

Lemma fetch_keeps_search_order_abc :
  let published :=
    imap (fun i book => withDetails book (detail netABC i)) (take 10 docsABC) in
  length published = Nat.min 10 (length docsABC) /\
  (forall i book, take 10 docsABC !! i = Some book ->
     exists item, published !! i = Some item /\ same_item book item) /\
  (forall order, NoDup order ->
     (forall i, i ∈ order <-> requested (take 10 docsABC) i) ->
     exists m, run netABC initialState (SearchDone :: (DetailDone <$> order)) = Some m /\
               pc m = Finished /\ books (ui m) = published) /\
  (forall sched m, run netABC initialState sched = Some m -> pc m = Finished ->
     books (ui m) = published).
Proof.
  apply (fetch_keeps_search_order netABC initialState searchABC docsABC);
    vm_compute; reflexivity.
Defined.

(** The run of the sample search in which C's details arrive first. *)
Example cFirst_run :
  run netABC initialState cFirst =
  Some (mkMachine (outcome netABC initialState) Finished) /\
  (fun item => get item "title") <$> books (outcome netABC initialState) =
  [Some (VStr "A"); Some (VStr "B"); Some (VStr "C")].
Proof. split; vm_compute; reflexivity. Qed.

(** Of twelve works found, the first ten are published, in the order found. *)
Example twelve_found_ten_published :
  (fun m => (fun item => get item "title") <$> books (ui m)) <$>
    run netTwelve initialState
        (SearchDone :: (DetailDone <$> [9; 3; 0; 7; 1; 8; 2; 6; 4; 5]%nat)) =
  Some ((fun n => Some (VStr (toString n))) <$> [1; 2; 3; 4; 5; 6; 7; 8; 9; 10]) /\
  run netTwelve initialState [SearchDone; DetailDone 10%nat] = None.
Proof. split; vm_compute; reflexivity. Qed.

(** C2.  When the search is fulfilled with N <= 10 results, the run always
    ends, and every finished run has reported success (no error, loading
    cleared) with N items; an item whose detail request was rejected is the
    search summary itself, so none of its fields has changed and none was
    added. *)
Theorem failed_details_leave_summaries net s data docs :
  search net = Resolved data ->
  get data "docs" = Some (VArr docs) ->
  (length docs <= 10)%nat ->
  (exists sched m, run net s sched = Some m /\ pc m = Finished) /\
  (forall sched m, run net s sched = Some m -> pc m = Finished ->
     error (ui m) = None /\ loading (ui m) = false /\
     length (books (ui m)) = length docs /\
     (forall i book, docs !! i = Some book -> detail net i = Rejected ->
        books (ui m) !! i = Some book)).
Proof.
  intros Hs Hd Hlen.
  pose proof (fetched_docs net data docs Hs Hd) as Hf.
  rewrite take_ge in Hf by done. split.
  - destruct (run_completes net s [] (fetchBooks s) eq_refl) as (_ & rest & m & H).
    by exists rest, m.
  - intros sched m Hrun Hpc. rewrite (run_finished _ _ _ _ Hrun Hpc).
    destruct (outcome_success net s _ Hf) as (-> & -> & ->).
    rewrite length_enriched. repeat split; try done.
    intros i book Hi Hrej. rewrite lookup_enriched, Hi. simpl.
    by rewrite Hrej, withDetails_rejected.
Qed.

Lemma failed_details_leave_summaries_abc :
  (exists sched m, run netABC initialState sched = Some m /\ pc m = Finished) /\
  (forall sched m, run netABC initialState sched = Some m -> pc m = Finished ->
     error (ui m) = None /\ loading (ui m) = false /\
     length (books (ui m)) = length docsABC /\
     (forall i book, docsABC !! i = Some book -> detail netABC i = Rejected ->
        books (ui m) !! i = Some book)).
Proof.
  apply (failed_details_leave_summaries netABC initialState searchABC docsABC);
    vm_compute; solve [reflexivity | lia].
Defined.

Lemma run_inflight net s sched m :
  run net s sched = Some m -> pc m <> Finished ->
  error (ui m) = None /\ loading (ui m) = true /\ books (ui m) = books s.
Proof.
  intros H Hpc. apply run_consistent in H. unfold consistent in H.
  destruct (pc m) as [|l slots|]; [| |done].
  - by rewrite H.
  - destruct H as (-> & _). done.
Qed.

Lemma run_failure net s sched m :
  fetched net = None -> run net s sched = Some m ->
  books (ui m) = books s /\
  (pc m = Finished -> error (ui m) = Some errorMessage /\ loading (ui m) = false).
Proof.
  intros Hf H. pose proof (run_consistent _ _ _ _ H) as Hc.
  unfold consistent in Hc. destruct (pc m) as [|l slots|] eqn:Hpc.
  - rewrite Hc. by split.
  - destruct Hc as (_ & Hl & _). congruence.
  - rewrite Hc. destruct (outcome_failure net s Hf) as (-> & -> & ->). by split.
Qed.

Lemma run_success net s sched m l :
  fetched net = Some l -> run net s sched = Some m -> error (ui m) = None.
Proof.
  intros Hf H. pose proof (run_consistent _ _ _ _ H) as Hc.
  unfold consistent in Hc. destruct (pc m) as [|l' slots|] eqn:Hpc.
  - by rewrite Hc.
  - destruct Hc as (-> & _). done.
  - rewrite Hc. by destruct (outcome_success net s l Hf) as (_ & -> & _).
Qed.

(** C4.  When the search request is rejected the run is over at once: the
    generic message is set, loading is cleared, and neither then nor at any
    earlier point of the run has the list of books (or any other field) been
    written. *)
Theorem search_failure_keeps_list net s :
  search net = Rejected ->
  run net s [SearchDone] =
    Some (mkMachine
            (mkState (genre s) (year s) (books s) false (Some errorMessage)
                     (genreSuggestions s) (yearSuggestions s) (selectedBook s))
            Finished) /\
  (forall sched m, run net s sched = Some m -> books (ui m) = books s) /\
  (forall sched m, run net s sched = Some m -> pc m = Finished ->
     error (ui m) = Some errorMessage /\ loading (ui m) = false).
Proof.
  intros Hs.
  assert (Hf : fetched net = None) by (unfold fetched; by rewrite Hs).
  split; [|split].
  - unfold run, fetchBooks. simpl. unfold step. simpl. by rewrite Hs.
  - intros sched m H. by destruct (run_failure net s sched m Hf H).
  - intros sched m H Hpc. destruct (run_failure net s sched m Hf H) as [_ Hfin]. auto.
Qed.

Lemma search_failure_keeps_list_shown :
  run netDown shownB [SearchDone] =
    Some (mkMachine
            (mkState (genre shownB) (year shownB) (books shownB) false
                     (Some errorMessage) (genreSuggestions shownB)
                     (yearSuggestions shownB) (selectedBook shownB))
            Finished) /\
  (forall sched m, run netDown shownB sched = Some m -> books (ui m) = books shownB) /\
  (forall sched m, run netDown shownB sched = Some m -> pc m = Finished ->
     error (ui m) = Some errorMessage /\ loading (ui m) = false).
Proof. apply (search_failure_keeps_list netDown shownB). reflexivity. Defined.

(** One run on its own, from a state that shows the list of an earlier
    search.  When the search is rejected the run ends with that list, one
    book long, still in place and the error message set; when it is
    fulfilled with no results the run ends with an empty list and no
    error. *)
Example rejected_search_and_empty_search :
  run netDown shownB [SearchDone] =
    Some (mkMachine
            (mkState "Fantasy" "1999" [bookB] false
                     (Some "An error occurred while fetching books. Please try again.")
                     [] [] None)
            Finished) /\
  run netNone shownB [SearchDone] =
    Some (mkMachine (mkState "Fantasy" "1999" [] false None [] [] None) Finished).
Proof. split; vm_compute; reflexivity. Qed.

(** ** The merge: page count and description *)

Lemma withDetails_fields book data :
  is_Some (detailUrl book) -> nullish data = false ->
  get (withDetails book (Resolved data)) "number_of_pages_median" =
    get data "number_of_pages" /\
  get (withDetails book (Resolved data)) "description" = description data.
Proof.
  intros Hb Hd.
  destruct (withDetails_resolved book data Hb Hd) as (desc & Hdesc & ->).
  rewrite Hdesc, (get_object data _ Hd). unfold get. simpl.
  rewrite lookup_insert_ne by done. by rewrite !lookup_insert_eq.
Qed.

(** C9.  When a detail request was sent and its payload can be read, the
    merged item's [number_of_pages_median] is the payload's
    [number_of_pages], read with no test for its presence: when the payload
    has no such field the item's page count is [undefined], whatever page
    count the search summary carried. *)
Theorem merge_overwrites_page_count book data :
  is_Some (detailUrl book) -> nullish data = false ->
  get (withDetails book (Resolved data)) "number_of_pages_median" =
    get data "number_of_pages" /\
  (own_props data !! "number_of_pages" = None ->
   forall pages, get book "number_of_pages_median" = Some pages ->
     get (withDetails book (Resolved data)) "number_of_pages_median" = Some VUndef).
Proof.
  intros Hb Hd.
  destruct (withDetails_fields book data Hb Hd) as [Hp _].
  split; [done|]. intros Habsent pages _.
  by rewrite Hp, (get_object data _ Hd), Habsent.
Qed.

(** The summary of A carries 320 pages; A's details carry no page count. *)
Lemma merge_overwrites_page_count_A :
  get bookA "number_of_pages_median" = Some (VNum 320) /\
  get (withDetails bookA (detailsABC 0)) "number_of_pages_median" = Some VUndef.
Proof.
  split; [vm_compute; reflexivity|].
  refine (proj2 (merge_overwrites_page_count bookA _ _ _) _ (VNum 320) _);
    first [vm_compute; reflexivity | eexists; vm_compute; reflexivity].
Defined.

(** C3, as stated, fails on the empty string: a payload whose description is
    the plain string [""] is given the sentinel, not [""]. *)
Lemma empty_description_gets_sentinel :
  description (obj [("description", VStr "")]) =
    Some (VStr "No description available.") /\
  get (withDetails bookA (Resolved (obj [("description", VStr "")]))) "description" =
    Some (VStr "No description available.").
Proof. split; vm_compute; reflexivity. Qed.

Lemma truthy_VStr s : s <> "" -> truthy (VStr s) = true.
Proof. intros H. simpl. by destruct s. Qed.

Lemma js_or_VStr s b : s <> "" -> js_or (VStr s) b = VStr s.
Proof. intros H. unfold js_or. by rewrite truthy_VStr. Qed.

(** The index properties of arrays and strings are numerals, so no other
    name reads one of them. *)
Lemma indexed_lookup_name {A} (f : A -> jsval) (l : list A) (name : string) :
  allChars decimalChar name = false -> indexed f l !! name = None.
Proof.
  intros Hname. unfold indexed. apply not_elem_of_list_to_map_1.
  intros Hin. apply list_elem_of_fmap in Hin as ([k v] & -> & Hin).
  apply elem_of_lookup_imap in Hin as (i & x & [= -> _] & _). simpl in Hname.
  by rewrite toString_decimal in Hname.
Qed.

Lemma get_VStr s name :
  allChars decimalChar name = false -> get (VStr s) name = Some VUndef.
Proof. intros H. unfold get. simpl. by rewrite indexed_lookup_name. Qed.

(** C3, amended.  For a detail request that was sent and whose payload can be
    read, the merged item's description is: [s] when the payload's
    description is a plain string [s] other than [""]; [s] when it is an
    object whose [value] is a string [s] other than [""]; the sentinel when
    the payload has no description, and also when its description is [""]. *)
Theorem description_normalized book data :
  is_Some (detailUrl book) -> nullish data = false ->
  let item := withDetails book (Resolved data) in
  (forall s, s <> "" -> own_props data !! "description" = Some (VStr s) ->
     get item "description" = Some (VStr s)) /\
  (forall w s, s <> "" -> own_props data !! "description" = Some (VObj w) ->
     w !! "value" = Some (VStr s) ->
     get item "description" = Some (VStr s)) /\
  (own_props data !! "description" = None ->
     get item "description" = Some (VStr noDescription)) /\
  (own_props data !! "description" = Some (VStr "") ->
     get item "description" = Some (VStr noDescription)).
Proof.
  intros Hb Hd item. unfold item.
  destruct (withDetails_fields book data Hb Hd) as [_ ->].
  unfold description. rewrite (get_object data _ Hd). cbn [mbind option_bind].
  repeat split.
  - intros s Hs ->. cbn [default from_option id get_opt]. rewrite get_VStr by done.
    cbn [mbind option_bind]. by rewrite (js_or_VStr s _ Hs).
  - intros w s Hs -> Hw. cbn [default from_option id get_opt get own_props].
    rewrite Hw. cbn [default from_option id mbind option_bind]. by rewrite !(js_or_VStr s _ Hs).
  - by intros ->.
  - by intros ->.
Qed.

Lemma description_normalized_abc :
  get (withDetails bookA (detailsABC 0)) "description" = Some (VStr "text") /\
  get (withDetails bookC (detailsABC 2)) "description" = Some (VStr "text") /\
  get (withDetails bookB (Resolved (obj [("number_of_pages", VNum 12)]))) "description" =
    Some (VStr noDescription).
Proof.
  split; [|split].
  - refine (proj1 (proj2 (description_normalized bookA _ _ _)) _ "text" _ _ _);
      first [vm_compute; reflexivity | eexists; vm_compute; reflexivity | discriminate].
  - refine (proj1 (description_normalized bookC _ _ _) "text" _ _);
      first [vm_compute; reflexivity | eexists; vm_compute; reflexivity | discriminate].
  - refine (proj1 (proj2 (proj2 (description_normalized bookB _ _ _))) _);
      first [vm_compute; reflexivity | eexists; vm_compute; reflexivity].
Defined.

(** ** Selection, suggestions and the automatic fetch *)

(** C6, as stated, fails.  In [shownABC] the second book is selected.  Two
    clicks on it end with it selected again, not in the unselected state;
    and two clicks on the first book end with nothing selected, which is not
    the state they started from: on the same argument the toggle is not an
    involution of every selection state. *)
Lemma double_click_from_a_selection :
  selectedBook shownABC = Some 1%nat /\
  selectedBook (handleBookClick 1%nat (handleBookClick 1%nat shownABC)) = Some 1%nat /\
  selectedBook (handleBookClick 0%nat (handleBookClick 0%nat shownABC)) = None.
Proof. repeat split. Qed.

(** C6, amended.  A click on [book] deselects it when it is the selected
    one and selects it otherwise.  So two clicks on a book that was not
    selected end with nothing selected, and from the unselected state (and
    from the state in which [book] is selected) two clicks on [book] restore
    the state; a click on a book while another one is selected selects the
    clicked one at once; and two books that are both selected are the same
    book. *)
Theorem book_click_toggles (book : ref) (s : State) :
  (selectedBook s = Some book -> selectedBook (handleBookClick book s) = None) /\
  (selectedBook s <> Some book ->
     selectedBook (handleBookClick book s) = Some book) /\
  (selectedBook s <> Some book ->
     selectedBook (handleBookClick book (handleBookClick book s)) = None) /\
  (selectedBook s = None \/ selectedBook s = Some book ->
     handleBookClick book (handleBookClick book s) = s) /\
  (forall other, selectedBook s = Some other -> other <> book ->
     selectedBook (handleBookClick book s) = Some book) /\
  (forall b1 b2, isSelected b1 s = true -> isSelected b2 s = true -> b1 = b2).
Proof.
  assert (Hyes : selectedBook s = Some book -> isSelected book s = true).
  { intros H. unfold isSelected. rewrite H. apply Nat.eqb_refl. }
  assert (Hno : selectedBook s <> Some book -> isSelected book s = false).
  { intros H. unfold isSelected. destruct (selectedBook s) as [b|]; [|done].
    apply Nat.eqb_neq. congruence. }
  assert (Hafter : isSelected book (setSelectedBook (Some book) s) = true).
  { unfold isSelected. simpl. apply Nat.eqb_refl. }
  repeat split.
  - intros H. unfold handleBookClick. by rewrite (Hyes H).
  - intros H. unfold handleBookClick. by rewrite (Hno H).
  - intros H. unfold handleBookClick at 2. rewrite (Hno H).
    unfold handleBookClick. by rewrite Hafter.
  - intros [H|H].
    + unfold handleBookClick at 2. rewrite Hno by congruence.
      unfold handleBookClick. rewrite Hafter. destruct s; simpl in *. by subst.
    + unfold handleBookClick at 2. rewrite (Hyes H).
      unfold handleBookClick, isSelected. simpl. destruct s; simpl in *. by subst.
  - intros other H Hne. unfold handleBookClick. rewrite Hno; [done|congruence].
  - unfold isSelected. intros b1 b2. destruct (selectedBook s) as [b|]; [|done].
    intros H1 H2. apply Nat.eqb_eq in H1, H2. congruence.
Qed.

Example click_twice_then_swap :
  selectedBook (handleBookClick 1%nat (handleBookClick 1%nat initialState)) = None /\
  selectedBook (handleBookClick 2%nat (handleBookClick 1%nat initialState)) = Some 2%nat /\
  selectedBook
    (handleBookClick 1%nat (handleBookClick 1%nat (handleBookClick 2%nat initialState))) = None.
Proof. repeat split. Qed.

Lemma elem_of_recentYears (currentYear y : Z) :
  y ∈ recentYears currentYear <-> currentYear - 9 <= y <= currentYear.
Proof.
  unfold recentYears. rewrite list_elem_of_fmap. split.
  - intros (i & -> & Hi). apply elem_of_seq in Hi. lia.
  - intros H. exists (Z.to_nat (currentYear - y)). split; [lia|].
    apply elem_of_seq. lia.
Qed.

(** C7.  Both change handlers store the text typed.  For a text that is not
    empty the suggestions are the candidates (the eleven genres; the ten
    years ending with the current one) in which the text occurs when case is
    ignored; for the empty text there are none.  Selecting a suggestion
    stores it in the field (a year as its numeral) and empties that field's
    suggestions. *)
Theorem suggestions_are_matching_candidates (currentYear : Z) (text : string) (s : State) :
  genre (handleGenreChange text s) = text /\
  year (handleYearChange currentYear text s) = text /\
  (text <> "" ->
     (forall g, g ∈ genreSuggestions (handleGenreChange text s) <->
                g ∈ popularGenres /\ ci_substring text g) /\
     (forall y, y ∈ yearSuggestions (handleYearChange currentYear text s) <->
                (currentYear - 9 <= y <= currentYear) /\
                ci_substring text (toString y))) /\
  (text = "" ->
     genreSuggestions (handleGenreChange text s) = [] /\
     yearSuggestions (handleYearChange currentYear text s) = []) /\
  (forall g, genre (selectGenre g s) = g /\ genreSuggestions (selectGenre g s) = []) /\
  (forall y, year (selectYear y s) = toString y /\ yearSuggestions (selectYear y s) = []).
Proof.
  unfold handleGenreChange, handleYearChange.
  split; [by destruct (nonEmpty text)|].
  split; [by destruct (nonEmpty text)|].
  split; [|split; [|by split]].
  - intros Hne. unfold nonEmpty. rewrite (truthy_VStr text Hne).
    unfold setGenreSuggestions, setYearSuggestions.
    cbn [genreSuggestions yearSuggestions]. split.
    + intros g. rewrite !list_elem_of_In, filter_In.
      unfold ci_substring. by rewrite includes_spec.
    + intros y. rewrite list_elem_of_In, filter_In, <- list_elem_of_In.
      by rewrite elem_of_recentYears, includes_toString.
  - by intros ->.
Qed.

Example fan_suggests_fantasy :
  genreSuggestions (handleGenreChange "fan" initialState) = ["Fantasy"] /\
  genreSuggestions (handleGenreChange "FIC" initialState) =
    ["Fiction"; "Science Fiction"; "Historical Fiction"; "Non-fiction"] /\
  yearSuggestions (handleYearChange 2026 "202" initialState) =
    [2026; 2025; 2024; 2023; 2022; 2021; 2020]%Z /\
  yearSuggestions (handleYearChange 2026 "next year" initialState) = [].
Proof. repeat split. Qed.

Lemma depsChanged_true (prev cur : State) :
  genre cur <> genre prev \/ year cur <> year prev -> depsChanged prev cur = true.
Proof.
  unfold depsChanged. intros H. apply negb_true_iff, andb_false_iff.
  rewrite !String.eqb_neq. destruct H; [left | right]; congruence.
Qed.

Lemma depsChanged_false (prev cur : State) :
  genre cur = genre prev -> year cur = year prev -> depsChanged prev cur = false.
Proof.
  unfold depsChanged. intros -> ->. by rewrite !String.eqb_refl.
Qed.

(** An event that leaves both fields as they were sends no request, unless
    it is the button. *)
Lemma unchanged_inputs_fetch_nothing (currentYear : Z) (e : event) (s : State) :
  e <> Submit ->
  genre (handle currentYear e s) = genre s ->
  year (handle currentYear e s) = year s ->
  dispatch currentYear e s = (handle currentYear e s, None).
Proof.
  intros He Hg Hy. destruct e; try done; unfold dispatch;
    by rewrite (depsChanged_false _ _ Hg Hy).
Qed.

(** C8, as stated, fails: after "Fantasy" and "2024" have been typed (which
    sent a search request), selecting the suggested year 2024 is a mutation
    after which both fields are non-empty, and it sends no request. *)
Lemma selecting_typed_year_fetches_nothing :
  snd (dispatch 2026 (YearChange "2024") typedFantasy) =
    Some "https://openlibrary.org/search.json?q=Fantasy&first_publish_year=2024" /\
  yearSuggestions typedFantasy2024 = [2024] /\
  snd (dispatch 2026 (SelectYear 2024) typedFantasy2024) = None /\
  genre (fst (dispatch 2026 (SelectYear 2024) typedFantasy2024)) = "Fantasy" /\
  year (fst (dispatch 2026 (SelectYear 2024) typedFantasy2024)) = "2024" /\
  yearSuggestions (fst (dispatch 2026 (SelectYear 2024) typedFantasy2024)) = [].
Proof. repeat split. Qed.

(** C8, amended.  An event whose handler changes the genre or the year and
    leaves both non-empty (typing, or selecting a suggestion) ends in a call
    of [fetchBooks] on the new state, which sends the search request for the
    new genre and year; the button calls [fetchBooks] whatever the fields
    hold. *)
Theorem changed_inputs_trigger_fetch (currentYear : Z) (s : State) :
  (forall e,
     let s' := handle currentYear e s in
     genre s' <> genre s \/ year s' <> year s ->
     genre s' <> "" -> year s' <> "" ->
     dispatch currentYear e s =
       (ui (fetchBooks s'), Some (searchUrl (genre s') (year s')))) /\
  dispatch currentYear Submit s =
    (ui (fetchBooks s), Some (searchUrl (genre s) (year s))).
Proof.
  split; [|done]. intros e s' Hch Hg Hy.
  assert (He : effectFetches s' = true).
  { unfold effectFetches, nonEmpty. by rewrite !truthy_VStr. }
  destruct e; unfold dispatch; fold s';
    try (by rewrite (depsChanged_true s s' Hch), He).
  simpl in s'. subst s'. by destruct Hch.
Qed.

Example typing_then_selecting_genre :
  snd (dispatch 2026 (SelectGenre "Fantasy")
         (fst (dispatch 2026 (YearChange "2024")
                 (fst (dispatch 2026 (GenreChange "fan") initialState))))) =
    Some "https://openlibrary.org/search.json?q=Fantasy&first_publish_year=2024" /\
  snd (dispatch 2026 (GenreChange "Fantasy") initialState) = None /\
  snd (dispatch 2026 Submit initialState) =
    Some "https://openlibrary.org/search.json?q=&first_publish_year=".
Proof. repeat split. Qed.

(** ** Further properties of the pipeline *)

Lemma own_props_not_object (data : jsval) (name : string) :
  (forall m, data <> VObj m) -> allChars decimalChar name = false ->
  own_props data !! name = None.
Proof.
  intros Hobj Hname.
  destruct data; simpl; try done; try (by apply indexed_lookup_name).
  by destruct (Hobj props).
Qed.

(** X1.  A fulfilled search whose payload has no [docs] array (the payload
    is [null] or [undefined], or [docs] is missing or is not an array) ends
    the run exactly as a rejected search does. *)
Theorem search_without_docs_fails (det : nat -> response) (data : jsval) (s : State) :
  (fetchedBooks data = None <->
     nullish data = true \/ forall l, own_props data !! "docs" <> Some (VArr l)) /\
  (fetchedBooks data = None ->
     run (mkNetwork (Resolved data) det) s [SearchDone] =
       Some (failed (ui (fetchBooks s))) /\
     run (mkNetwork (Resolved data) det) s [SearchDone] =
       run (mkNetwork Rejected det) s [SearchDone]).
Proof.
  split.
  - unfold fetchedBooks. destruct (nullish data) eqn:Hn.
    + rewrite (get_nullish _ _ Hn). simpl. split; [by left | done].
    + rewrite (get_object _ _ Hn). simpl.
      destruct (own_props data !! "docs") as [d|] eqn:Hd; simpl.
      * destruct d; simpl; split; try done;
          try (intros _; right; congruence);
          intros [?|H]; try done; by destruct (H elems).
      * split; [intros _; right; congruence | done].
  - intros H. unfold run, fetchBooks. simpl. unfold step. simpl. by rewrite H.
Qed.

(** X2.  A detail payload that is not an object.  When it is [null] or
    [undefined] the callback returns the summary itself, as for a rejected
    request; when it is a string, a number, a boolean or an array the item is
    still built, with an undefined page count and the sentinel description. *)
Theorem detail_payload_not_an_object (book data : jsval) :
  is_Some (detailUrl book) ->
  (forall m, data <> VObj m) ->
  (nullish data = true ->
     withDetails book (Resolved data) = withDetails book Rejected) /\
  (nullish data = false ->
     get (withDetails book (Resolved data)) "number_of_pages_median" = Some VUndef /\
     get (withDetails book (Resolved data)) "description" = Some (VStr noDescription)).
Proof.
  intros Hb Hobj. split.
  - intros Hd. by rewrite withDetails_rejected, withDetails_unreadable.
  - intros Hd.
    assert (Hdesc : description data = Some (VStr noDescription)).
    { unfold description. rewrite (get_object data _ Hd).
      by rewrite (own_props_not_object data "description" Hobj). }
    destruct (withDetails_fields book data Hb Hd) as [Hp Hdes].
    rewrite Hp, Hdes, (get_object data _ Hd).
    rewrite (own_props_not_object data "number_of_pages" Hobj) by done.
    by split.
Qed.

Lemma detail_payload_not_an_object_html :
  (nullish htmlPage = true ->
     withDetails bookA (Resolved htmlPage) = withDetails bookA Rejected) /\
  (nullish htmlPage = false ->
     get (withDetails bookA (Resolved htmlPage)) "number_of_pages_median" = Some VUndef /\
     get (withDetails bookA (Resolved htmlPage)) "description" = Some (VStr noDescription)).
Proof.
  apply (detail_payload_not_an_object bookA htmlPage);
    [eexists; vm_compute; reflexivity | discriminate].
Defined.



(** ** What is rendered *)

(** The text of a parsed object: its own [toString] property, which is
    not a function, makes the conversion throw. *)
Lemma toStr_object (m : gmap string jsval) :
  toStr (VObj m) = None <-> is_Some (m !! "toString").
Proof.
  simpl. destruct (m !! "toString") as [v|]; split; intros H.
  - by exists v.
  - done.
  - done.
  - by destruct H.
Qed.

Lemma renderCard_nullish (expanded : bool) (book : jsval) :
  nullish book = true -> renderCard expanded book = None.
Proof. intros Hn. unfold renderCard. by rewrite (get_nullish _ "key" Hn). Qed.

(** On a book that can be read, the card is made of the three texts that
    may fail and of reads that do not. *)
Lemma renderCard_readable (expanded : bool) (book : jsval) :
  nullish book = false ->
  renderCard expanded book =
    src ← coverAddress (default VUndef (own_props book !! "cover_i"));
    title ← toStr (default VUndef (own_props book !! "title"));
    authors ← authorsLine (default VUndef (own_props book !! "author_name"));
    Some (mkCard (default VUndef (own_props book !! "key")) expanded src
            ("Cover of " +:+ title)
            (default VUndef (own_props book !! "title")) authors
            (js_or (default VUndef (own_props book !! "first_publish_year")) (VStr "Unknown"))
            (if truthy (default VUndef (own_props book !! "number_of_pages_median"))
             then Shown (default VUndef (own_props book !! "number_of_pages_median"))
             else Skipped (default VUndef (own_props book !! "number_of_pages_median")))
            (shownDescription (default VUndef (own_props book !! "description")))).
Proof. intros Hn. unfold renderCard. by rewrite !(get_object _ _ Hn). Qed.

Lemma renderCard_breaks (expanded : bool) (book : jsval) :
  breaksRender book -> renderCard expanded book = None.
Proof.
  intros [Hn|Hbad]; [by apply renderCard_nullish|].
  destruct (nullish book) eqn:Hn; [by apply renderCard_nullish|].
  rewrite (renderCard_readable _ _ Hn).
  destruct Hbad as [(c & -> & Ht & Hc)|[(t & -> & Ht)|(a & -> & Ht & Ha)]]; simpl.
  - unfold coverAddress. by rewrite Ht, Hc.
  - rewrite Ht. by destruct (coverAddress _).
  - assert (authorsLine a = None) as ->.
    { unfold authorsLine. rewrite Ht.
      destruct Ha as [Ha|(l & -> & Hl)]; [|done].
      destruct a; try done. by destruct (Ha elems). }
    destruct (coverAddress _); simpl; [|done]. by destruct (toStr _).
Qed.

Lemma render_breaks (refOf : nat -> ref) (s : State) (book : jsval) :
  book ∈ books s -> breaksRender book -> render refOf s = None.
Proof.
  intros Hin Hbad. unfold render.
  assert (Hm : mapM id (imap (fun i book => renderCard (isSelected (refOf i) s) book)
                             (books s)) = None); [|by rewrite Hm].
  apply mapM_None, Exists_exists.
  apply list_elem_of_lookup in Hin as [i Hi].
  exists (renderCard (isSelected (refOf i) s) book). split.
  - by apply (elem_of_lookup_imap_2
                (fun i book => renderCard (isSelected (refOf i) s) book)).
  - by apply renderCard_breaks.
Qed.

(** X4.  The component function throws while it builds its output whenever
    the list of books has an entry that is [null] or [undefined], or whose
    [author_name] is truthy and not an array, or whose cover id, title or
    author has no text; and a parsed object has no text exactly when it has
    a property of its own called [toString]. *)
Theorem render_throws_on_broken_book (refOf : nat -> ref) (s : State) (book : jsval) :
  book ∈ books s ->
  nullish book = true \/
  (exists c, own_props book !! "cover_i" = Some c /\ truthy c = true /\ toStr c = None) \/
  (exists t, own_props book !! "title" = Some t /\ toStr t = None) \/
  (exists a, own_props book !! "author_name" = Some a /\ truthy a = true /\
             ((forall l, a <> VArr l) \/
              exists l, a = VArr l /\ joinWith toStr ", " l = None)) ->
  render refOf s = None /\
  (forall m : gmap string jsval, toStr (VObj m) = None <-> is_Some (m !! "toString")).
Proof.
  intros Hin Hbad. split; [by apply (render_breaks refOf s book)|].
  apply toStr_object.
Qed.

Lemma render_throws_on_broken_book_hole :
  render id (outcome netHole initialState) = None /\
  (forall m : gmap string jsval, toStr (VObj m) = None <-> is_Some (m !! "toString")).
Proof.
  apply (render_throws_on_broken_book id (outcome netHole initialState) VNull).
  - apply list_elem_of_lookup. exists 1%nat. vm_compute. reflexivity.
  - by left.
Defined.




(** X6.  The description a card shows for a merged item is never empty: it
    is the payload's description when that is a non-empty string, the
    [value] of the payload's description object when that is a non-empty
    string, and the sentinel in every other case (no description, an empty
    one, an object without such a [value], a number, an array, ...). *)
Theorem merged_description_shown (book data : jsval) (expanded : bool) (card : Card) :
  is_Some (detailUrl book) -> nullish data = false ->
  renderCard expanded (withDetails book (Resolved data)) = Some card ->
  cardDescription card <> "" /\
  cardDescription card =
    match own_props data !! "description" with
    | Some (VStr (String c text)) => String c text
    | Some (VObj w) =>
        match w !! "value" with
        | Some (VStr (String c text)) => String c text
        | _ => noDescription
        end
    | _ => noDescription
    end.
Proof.
  intros Hb Hd Hcard.
  assert (Hitem : nullish (withDetails book (Resolved data)) = false).
  { by destruct (withDetails_resolved book data Hb Hd) as (desc & _ & ->). }
  assert (Hshown : exists d, description data = Some d /\
                             cardDescription card = shownDescription d).
  { destruct (withDetails_fields book data Hb Hd) as [_ Hdes].
    rewrite (get_object _ _ Hitem) in Hdes.
    rewrite (renderCard_readable _ _ Hitem) in Hcard.
    destruct (coverAddress _); simpl in Hcard; [|done].
    destruct (toStr _); simpl in Hcard; [|done].
    destruct (authorsLine _); simpl in Hcard; [|done].
    injection Hcard as <-. simpl. eexists. split; [symmetry; exact Hdes | done]. }
  destruct Hshown as (d & Hdesc & ->). clear Hcard Hitem.
  unfold description in Hdesc. rewrite (get_object data _ Hd) in Hdesc.
  cbn [mbind option_bind] in Hdesc.
  destruct (own_props data !! "description") as [d0|];
    cbn [default from_option id] in Hdesc.
  - destruct d0 as [| |b|n|text|elems|w];
      cbn [get_opt get own_props] in Hdesc;
      try rewrite indexed_lookup_name in Hdesc by done;
      cbn [default from_option id mbind option_bind] in Hdesc;
      injection Hdesc as <-.
    + done.
    + done.
    + by destruct b.
    + by destruct n.
    + by destruct text.
    + done.
    + destruct (w !! "value") as [dv|]; [|done].
      cbn [default from_option id]. unfold js_or.
      destruct dv as [| |b|n|text|elems|w']; simpl; try done.
      * by destruct b.
      * by destruct n.
      * by destruct text.
  - by injection Hdesc as <-.
Qed.

Lemma merged_description_shown_wrapped_empty :
  cardDescription cardWrappedEmpty <> "" /\
  cardDescription cardWrappedEmpty =
    match own_props wrappedEmpty !! "description" with
    | Some (VStr (String c text)) => String c text
    | Some (VObj w) =>
        match w !! "value" with
        | Some (VStr (String c text)) => String c text
        | _ => noDescription
        end
    | _ => noDescription
    end.
Proof.
  apply (merged_description_shown bookA wrappedEmpty false cardWrappedEmpty);
    first [vm_compute; reflexivity | eexists; vm_compute; reflexivity].
Defined.

Example wrapped_empty_shows_sentinel :
  get (withDetails bookA (Resolved wrappedEmpty)) "description" =
    Some (obj [("type", VStr "/type/text"); ("value", VStr "")]) /\
  cardDescription <$> renderCard false (withDetails bookA (Resolved wrappedEmpty)) =
    Some "No description available.".
Proof. split; vm_compute; reflexivity. Qed.

Lemma cardExpanded_renderCard expanded book card :
  renderCard expanded book = Some card -> cardExpanded card = expanded.
Proof.
  unfold renderCard. intros H.
  repeat (match type of H with
          | context [?o ≫= _] => destruct o; simpl in H; [|done]
          end).
  by injection H as <-.
Qed.

Lemma whenNonEmpty_Some {A} (l k : list A) : whenNonEmpty l = Some k -> k = l.
Proof. destruct l; simpl; congruence. Qed.

(** The cards of a view are those of the books, place by place. *)
Lemma render_cards (refOf : nat -> ref) (s : State) v cards j card :
  render refOf s = Some v -> resultCards v = Some cards ->
  cards !! j = Some card ->
  exists book, books s !! j = Some book /\
               renderCard (isSelected (refOf j) s) book = Some card.
Proof.
  unfold render. intros Hv Hcards Hj.
  destruct (mapM id _) as [cs|] eqn:Hm; simpl in Hv; [|done].
  injection Hv as <-. simpl in Hcards.
  apply whenNonEmpty_Some in Hcards as ->.
  apply mapM_Some_1 in Hm.
  destruct (Forall2_lookup_r _ _ _ _ _ Hm Hj) as (o & Ho & Hcard).
  rewrite list_lookup_imap in Ho.
  destruct (books s !! j) as [book|]; simpl in Ho; [|done].
  exists book. split; [done|]. by injection Ho as <-.
Qed.

(** X7.  When the books on screen are distinct objects, a click on the card
    at place [i] leaves that card as the only expanded one if it was
    collapsed, and no card expanded if it was expanded. *)
Theorem click_expands_one_card (refOf : nat -> ref) (s : State) (i : nat) v cards :
  (forall j k, (j < length (books s))%nat -> (k < length (books s))%nat ->
               refOf j = refOf k -> j = k) ->
  (i < length (books s))%nat ->
  render refOf (handleBookClick (refOf i) s) = Some v ->
  resultCards v = Some cards ->
  length cards = length (books s) /\
  forall j card, cards !! j = Some card ->
    cardExpanded card =
      if isSelected (refOf i) s then false else bool_decide (j = i).
Proof.
  intros Hinj Hi Hv Hcards. split.
  - revert Hv Hcards. unfold render. simpl.
    destruct (mapM id _) as [cs|] eqn:Hm; simpl; [|done].
    intros [= <-]. simpl. intros Hc. apply whenNonEmpty_Some in Hc as ->.
    apply mapM_Some_1, Forall2_length in Hm. by rewrite length_imap in Hm.
  - intros j card Hj.
    destruct (render_cards _ _ _ _ _ _ Hv Hcards Hj) as (book & Hb & Hcard).
    rewrite (cardExpanded_renderCard _ _ _ Hcard).
    simpl in Hb. apply lookup_lt_Some in Hb.
    unfold handleBookClick, isSelected at 1. simpl.
    destruct (isSelected (refOf i) s); [done|].
    case_bool_decide as Hji.
    + subst j. apply Nat.eqb_refl.
    + apply Nat.eqb_neq. intros Heq. by apply Hji, Hinj.
Qed.

Lemma click_expands_one_card_abc :
  length cardsClickedA = length (books shownABC) /\
  forall j card, cardsClickedA !! j = Some card ->
    cardExpanded card =
      if isSelected (id 0%nat) shownABC then false else bool_decide (j = 0%nat).
Proof.
  refine (click_expands_one_card id shownABC 0
            (mkView "Fantasy" None "1999" None false None (Some cardsClickedA))
            cardsClickedA _ _ _ _).
  - intros j k _ _ H. exact H.
  - vm_compute. lia.
  - vm_compute. reflexivity.
  - reflexivity.
Defined.

(** ** Overlapping runs *)

Lemma join_effect (net : network) (u : State) (l : list jsval) slots :
  fetched net = Some l -> slots_inv net l slots ->
  phase_ok net (pc (join u l slots)) /\
  ((pc (join u l slots) <> Finished /\ ui (join u l slots) = u) \/
   (pc (join u l slots) = Finished /\
    ui (join u l slots) = setLoading false (setBooks (enriched net l) u))).
Proof.
  intros Hf Hinv. unfold join.
  destruct (mapM id slots) as [vals|] eqn:E; simpl.
  - split; [done|]. right. split; [done|].
    apply mapM_id_Some in E. subst slots. by rewrite (slots_inv_full net l vals Hinv).
  - split; [done|]. by left.
Qed.

(** What one completion does to the state it finds, whatever that state is. *)
Lemma step_effect (net : network) (u : State) (p : phase) (c : completion) (m' : machine) :
  phase_ok net p -> step net (mkMachine u p) c = Some m' ->
  phase_ok net (pc m') /\
  ((pc m' <> Finished /\ ui m' = u) \/
   (pc m' = Finished /\
    ((exists l, fetched net = Some l /\
                ui m' = setLoading false (setBooks (enriched net l) u)) \/
     (fetched net = None /\
      ui m' = setLoading false (setError (Some errorMessage) u))))).
Proof.
  unfold step. simpl. destruct p as [|l slots|]; destruct c as [|i]; try done.
  - intros _ H.
    assert (Hm : m' = match fetched net with
                      | Some l => join u l (startDetail <$> l)
                      | None => failed u
                      end).
    { unfold fetched. destruct (search net) as [|data]; [by injection H|].
      destruct (fetchedBooks data); by injection H. }
    clear H. subst m'. destruct (fetched net) as [l|] eqn:Hf.
    + destruct (join_effect net u l _ Hf (slots_inv_start net l)) as [Hok [H|[H1 H2]]].
      * split; [done|]. by left.
      * split; [done|]. right. split; [done|]. left. by exists l.
    + simpl. split; [done|]. right. split; [done|]. by right.
  - intros (Hf & Hinv & _).
    destruct (slots !! i) as [[v|]|] eqn:Es; try done.
    destruct (l !! i) as [book|] eqn:El; try done. intros [= <-].
    destruct (join_effect net u l _ Hf (slots_inv_insert net l slots i book Hinv Es El))
      as [Hok [H|[H1 H2]]].
    + split; [done|]. by left.
    + split; [done|]. right. split; [done|]. left. by exists l.
Qed.

Lemma act_runs_ok currentYear nets (a a' : app) (x : action) :
  runs_ok nets (runs a) -> act currentYear nets a x = Some a' ->
  runs_ok nets (runs a').
Proof.
  intros Hok. destruct x as [e|r c]; simpl.
  - destruct (dispatch currentYear e (st a)) as [s' request].
    intros [= <-]. simpl. intros r p Hr.
    apply lookup_app_Some in Hr as [Hr|[_ Hr]]; [by eapply Hok|].
    destruct request; [|by destruct (r - length (runs a))%nat].
    apply list_lookup_singleton_Some in Hr as [_ <-]. done.
  - destruct (runs a !! r) as [p|] eqn:Hp; simpl; [|done].
    destruct (step (nets r) (mkMachine (st a) p) c) as [m'|] eqn:Hstep; simpl; [|done].
    intros [= <-]. simpl. intros r' p' Hr'.
    destruct (decide (r = r')) as [<-|Hne].
    + rewrite list_lookup_insert_eq in Hr' by (by eapply lookup_lt_Some).
      injection Hr' as <-.
      by destruct (step_effect (nets r) (st a) p c m' (Hok r p Hp) Hstep).
    + rewrite list_lookup_insert_ne in Hr' by done. by eapply Hok.
Qed.

Lemma acts_runs_ok currentYear nets xs : forall a a',
  runs_ok nets (runs a) -> acts currentYear nets a xs = Some a' ->
  runs_ok nets (runs a').
Proof.
  induction xs as [|x xs IH]; simpl; intros a a' Hok H.
  - by simplify_eq.
  - destruct (act currentYear nets a x) as [a1|] eqn:E; simpl in H; [|done].
    eapply IH; [|done]. by eapply act_runs_ok.
Qed.

Lemma mounted_runs_ok nets : runs_ok nets (runs mounted).
Proof. intros r p H. simpl in H. by destruct r. Qed.

(** X8.  Runs do not disturb one another.  In any state the component can
    reach, a completion of run [r] leaves every other run as it is; unless
    it ends the run it leaves the whole state as it is; and when it ends the
    run it clears [loading] (whether or not other runs are still in flight)
    and either publishes the list made from [r]'s own search and details,
    leaving [error] as another run may have set it, or sets the error
    message, leaving the books as they are. *)
Theorem overlapping_runs_keep_apart currentYear nets xs (a a' : app) r c :
  acts currentYear nets mounted xs = Some a ->
  act currentYear nets a (Complete r c) = Some a' ->
  (forall r', r' <> r -> runs a' !! r' = runs a !! r') /\
  ((runs a' !! r <> Some Finished /\ st a' = st a) \/
   (runs a' !! r = Some Finished /\ loading (st a') = false /\
    ((exists l, fetched (nets r) = Some l /\
                st a' = setLoading false (setBooks (enriched (nets r) l) (st a))) \/
     (fetched (nets r) = None /\
      st a' = setLoading false (setError (Some errorMessage) (st a)))))).
Proof.
  intros Hreach Hact.
  pose proof (acts_runs_ok _ _ _ _ _ (mounted_runs_ok nets) Hreach) as Hok.
  simpl in Hact.
  destruct (runs a !! r) as [p|] eqn:Hp; simpl in Hact; [|done].
  destruct (step (nets r) (mkMachine (st a) p) c) as [m'|] eqn:Hstep;
    simpl in Hact; [|done].
  injection Hact as <-. simpl.
  pose proof (lookup_lt_Some _ _ _ Hp) as Hlt.
  split; [intros r' Hne; by rewrite list_lookup_insert_ne|].
  rewrite list_lookup_insert_eq by done.
  destruct (step_effect (nets r) (st a) p c m' (Hok r p Hp) Hstep)
    as [_ [[Hnf ->]|[Hf Hui]]].
  - left. split; [congruence | done].
  - right. split; [by rewrite Hf|]. split.
    + by destruct Hui as [(l & _ & ->)|[_ ->]].
    + done.
Qed.

Lemma overlapping_runs_keep_apart_sample :
  (forall r', r' <> 0%nat -> runs overlapAfter !! r' = runs overlapBefore !! r') /\
  ((runs overlapAfter !! 0%nat <> Some Finished /\ st overlapAfter = st overlapBefore) \/
   (runs overlapAfter !! 0%nat = Some Finished /\ loading (st overlapAfter) = false /\
    ((exists l, fetched (netsOverlap 0) = Some l /\
                st overlapAfter =
                  setLoading false (setBooks (enriched (netsOverlap 0) l) (st overlapBefore))) \/
     (fetched (netsOverlap 0) = None /\
      st overlapAfter =
        setLoading false (setError (Some errorMessage) (st overlapBefore)))))).
Proof.
  apply (overlapping_runs_keep_apart 2026 netsOverlap overlapTrace
           overlapBefore overlapAfter 0 (DetailDone 2));
    vm_compute; reflexivity.
Defined.

(** The first run publishes its three books after the second one has failed:
    list and error message are on screen together. *)
Example overlap_ends_with_list_and_error :
  runs overlapAfter = [Finished; Finished] /\
  (fun item => get item "title") <$> books (st overlapAfter) =
    [Some (VStr "A"); Some (VStr "B"); Some (VStr "C")] /\
  error (st overlapAfter) = Some errorMessage /\
  loading (st overlapAfter) = false.
Proof. repeat split; vm_compute; reflexivity. Qed.

Lemma handle_books currentYear (e : event) (s : State) :
  books (handle currentYear e s) = books s.
Proof.
  destruct e; simpl; try done.
  - unfold handleGenreChange. by destruct (nonEmpty text).
  - unfold handleYearChange. by destruct (nonEmpty text).
Qed.

Lemma dispatch_books currentYear (e : event) (s : State) :
  books (fst (dispatch currentYear e s)) = books s.
Proof.
  pose proof (handle_books currentYear e s) as H.
  destruct e; unfold dispatch; try done;
    destruct (depsChanged _ _ && effectFetches _); simpl; exact H.
Qed.

Lemma step_Finished net u c : step net (mkMachine u Finished) c = None.
Proof. by destruct c. Qed.

Lemma act_screen currentYear nets (a a' : app) (x : action) :
  runs_ok nets (runs a) ->
  act currentYear nets a x = Some a' ->
  (books (st a) = [] \/
   exists r l, runs a !! r = Some Finished /\ fetched (nets r) = Some l /\
               books (st a) = enriched (nets r) l) ->
  books (st a') = [] \/
  exists r l, runs a' !! r = Some Finished /\ fetched (nets r) = Some l /\
              books (st a') = enriched (nets r) l.
Proof.
  intros Hok Hact Hinv. destruct x as [e|r c]; simpl in Hact.
  - pose proof (dispatch_books currentYear e (st a)) as Hb.
    destruct (dispatch currentYear e (st a)) as [s' request].
    injection Hact as <-. simpl in *. rewrite Hb.
    destruct Hinv as [?|(r & l & Hr & Hf & Hl)]; [by left|].
    right. exists r, l. split; [|done]. by apply lookup_app_l_Some.
  - destruct (runs a !! r) as [p|] eqn:Hp; simpl in Hact; [|done].
    destruct (step (nets r) (mkMachine (st a) p) c) as [m'|] eqn:Hstep;
      simpl in Hact; [|done].
    injection Hact as <-. simpl.
    pose proof (lookup_lt_Some _ _ _ Hp) as Hlt.
    assert (Hkeep : books (ui m') = books (st a) ->
              books (ui m') = [] \/
              exists r0 l, <[r:=pc m']> (runs a) !! r0 = Some Finished /\
                           fetched (nets r0) = Some l /\
                           books (ui m') = enriched (nets r0) l).
    { intros ->. destruct Hinv as [?|(r0 & l & Hr & Hf & Hl)]; [by left|].
      right. exists r0, l. split; [|done].
      destruct (decide (r = r0)) as [<-|Hne].
      - rewrite Hp in Hr. injection Hr as ->. by rewrite step_Finished in Hstep.
      - by rewrite list_lookup_insert_ne. }
    destruct (step_effect (nets r) (st a) p c m' (Hok r p Hp) Hstep)
      as [_ [[_ Hu]|[Hf [(l & Hl & Hu)|[_ Hu]]]]].
    + apply Hkeep. by rewrite Hu.
    + right. exists r, l. rewrite list_lookup_insert_eq by done.
      rewrite Hf, Hu. done.
    + apply Hkeep. by rewrite Hu.
Qed.

(** X9.  However calls of [fetchBooks], completions and user events
    interleave, the list of books on screen is never a partial list and
    never a mixture of two runs: it is empty, as at the start, or it is the
    whole list published by one run that has finished. *)
Theorem screen_shows_one_runs_list currentYear nets xs (a : app) :
  acts currentYear nets mounted xs = Some a ->
  books (st a) = [] \/
  exists r l, runs a !! r = Some Finished /\ fetched (nets r) = Some l /\
              books (st a) = imap (fun i book => withDetails book (detail (nets r) i)) l.
Proof.
  assert (Hgen : forall xs a0 a1,
            runs_ok nets (runs a0) ->
            (books (st a0) = [] \/
             exists r l, runs a0 !! r = Some Finished /\ fetched (nets r) = Some l /\
                         books (st a0) = enriched (nets r) l) ->
            acts currentYear nets a0 xs = Some a1 ->
            books (st a1) = [] \/
            exists r l, runs a1 !! r = Some Finished /\ fetched (nets r) = Some l /\
                        books (st a1) = enriched (nets r) l).
  { clear xs a. induction xs as [|x xs IH]; simpl; intros a0 a1 Hok Hinv H.
    - by simplify_eq.
    - destruct (act currentYear nets a0 x) as [a2|] eqn:E; simpl in H; [|done].
      apply (IH a2 a1); [by eapply act_runs_ok | by eapply act_screen | done]. }
  intros H. apply (Hgen xs mounted a); [apply mounted_runs_ok | by left | done].
Qed.

Lemma screen_shows_one_runs_list_sample :
  books (st overlapAfter) = [] \/
  exists r l, runs overlapAfter !! r = Some Finished /\
              fetched (netsOverlap r) = Some l /\
              books (st overlapAfter) =
                imap (fun i book => withDetails book (detail (netsOverlap r) i)) l.
Proof.
  apply (screen_shows_one_runs_list 2026 netsOverlap
           (overlapTrace ++ [Complete 0 (DetailDone 2)])).
  vm_compute. reflexivity.
Defined.

(** ** The end of a run among other runs *)

(** While a run has not ended one of its requests is in flight, and its
    completion is a step of the run, whatever the shared state is. *)
Lemma phase_progress net (u : State) (p : phase) :
  phase_ok net p -> p <> Finished ->
  exists c m', step net (mkMachine u p) c = Some m'.
Proof.
  unfold step; simpl. destruct p as [|l slots|]; [| |done]; intros Hok _.
  - exists SearchDone.
    destruct (search net) as [|data]; [eauto|].
    destruct (fetchedBooks data); eauto.
  - destruct Hok as (_ & Hinv & Hnone).
    apply mapM_id_None in Hnone as [i Hi]. exists (DetailDone i).
    rewrite Hi. destruct (Hinv i) as [H|H]; rewrite Hi in H;
      destruct (l !! i); simpl in H; try done; eauto.
Qed.

Lemma slots_inv_length net (l : list jsval) slots :
  slots_inv net l slots -> length slots = length l.
Proof.
  intros Hinv.
  assert (H : forall i, is_Some (slots !! i) <-> is_Some (l !! i)).
  { intros i. destruct (Hinv i) as [H|H]; rewrite H;
      destruct (l !! i); simpl; split; intros [x Hx]; try done; eauto. }
  destruct (Nat.lt_trichotomy (length slots) (length l)) as [Hlt|[Heq|Hlt]]; [|done|].
  - apply lookup_lt_is_Some_2, H, lookup_lt_is_Some_1 in Hlt. lia.
  - apply lookup_lt_is_Some_2, H, lookup_lt_is_Some_1 in Hlt. lia.
Qed.

Lemma inflight_bound net (u : State) (p : phase) :
  phase_ok net p -> (inflight (mkMachine u p) <= 11)%nat.
Proof.
  unfold inflight; simpl. destruct p as [|l slots|]; [lia| |lia].
  intros (Hf & Hinv & _).
  pose proof (pending_le_length slots). pose proof (fetched_length net l Hf).
  rewrite (slots_inv_length net l slots Hinv) in *. lia.
Qed.

(** Every run that is under way can be brought to its end by its own
    completions, whatever the other runs have done to the state. *)
Lemma app_run_completes currentYear nets (r : nat) : forall (n : nat) (a : app) p,
  runs_ok nets (runs a) -> runs a !! r = Some p -> p <> Finished ->
  (inflight (mkMachine (st a) p) <= n)%nat ->
  exists cs a', (length cs <= n)%nat /\
    acts currentYear nets a (Complete r <$> cs) = Some a' /\
    runs a' !! r = Some Finished /\ loading (st a') = false.
Proof.
  induction n as [|n IH]; intros a p Hok Hp Hnf Hn;
    destruct (phase_progress (nets r) (st a) p (Hok r p Hp) Hnf) as (c & m' & Hstep);
    pose proof (step_inflight _ _ _ _ Hstep) as Hlt; [lia|].
  assert (Hact : act currentYear nets a (Complete r c) =
                 Some (mkApp (ui m') (<[r := pc m']> (runs a)))).
  { cbn [act]. rewrite Hp. cbn [mbind option_bind]. by rewrite Hstep. }
  pose proof (lookup_lt_Some _ _ _ Hp) as Hr.
  assert (Hacts : forall cs, acts currentYear nets a (Complete r <$> c :: cs) =
                    acts currentYear nets (mkApp (ui m') (<[r := pc m']> (runs a)))
                         (Complete r <$> cs)).
  { intros cs. rewrite fmap_cons. cbn [acts]. by rewrite Hact. }
  destruct (step_effect (nets r) (st a) p c m' (Hok r p Hp) Hstep)
    as [_ [[Hnf' Hu]|[Hf Hu]]].
  - destruct (IH (mkApp (ui m') (<[r := pc m']> (runs a))) (pc m'))
      as (cs & a' & Hlen & Hrest & Hfin & Hload).
    + by eapply act_runs_ok.
    + simpl. by rewrite list_lookup_insert_eq.
    + done.
    + unfold inflight in *; simpl in *. lia.
    + exists (c :: cs), a'. rewrite Hacts. split; [simpl; lia | done].
  - exists [c], (mkApp (ui m') (<[r := pc m']> (runs a))).
    rewrite Hacts. split; [simpl; lia|]. split; [done|]. simpl. split.
    + by rewrite list_lookup_insert_eq, Hf.
    + by destruct Hu as [(l & _ & ->)|[_ ->]].
Qed.

(** C5, as stated, fails.  Two runs overlap: the search for "Fantasy",
    "1999" started by the effect finds A, B and C; the one started by the
    button while the first is in flight is rejected, and sets the error;
    then the last detail request of the first run completes.  That run ends
    by publishing its own three books, and the screen holds its populated
    list and the error message at once.  And when a search is fulfilled with
    no results the run ends with an empty list and no error: neither a
    populated list nor an error state. *)
Lemma list_published_beside_error :
  acts 2026 netsOverlap mounted
       [User (GenreChange "Fantasy"); User (YearChange "1999"); User Submit;
        Complete 0 SearchDone; Complete 0 (DetailDone 0); Complete 0 (DetailDone 1);
        Complete 1 SearchDone; Complete 0 (DetailDone 2)] = Some overlapAfter /\
  search (netsOverlap 0) = Resolved searchABC /\
  runs overlapAfter = [Finished; Finished] /\
  books (st overlapAfter) = enriched (netsOverlap 0) docsABC /\
  (fun item => get item "title") <$> books (st overlapAfter) =
    [Some (VStr "A"); Some (VStr "B"); Some (VStr "C")] /\
  error (st overlapAfter) =
    Some "An error occurred while fetching books. Please try again." /\
  loading (st overlapAfter) = false /\
  run netNone shownB [SearchDone] =
    Some (mkMachine (mkState "Fantasy" "1999" [] false None [] [] None) Finished).
Proof. repeat split; vm_compute; reflexivity. Qed.

(** C5, amended.  In every state the component can reach, a run that has
    not ended can be brought to its end by at most eleven completions of its
    own requests, and then the loading flag is cleared.  The completion that
    ends a run clears the loading flag and does exactly one of two things:
    it publishes the list made from the run's own search, at most ten items
    (possibly none), and leaves the error state as it is; or, when the
    search failed, it sets the error message and leaves the list of books as
    it is.  No run does both. *)
Theorem run_ends_published_or_failed currentYear nets xs (a : app) (r : nat) (p : phase) :
  acts currentYear nets mounted xs = Some a ->
  runs a !! r = Some p -> p <> Finished ->
  (exists cs a', (length cs <= 11)%nat /\
     acts currentYear nets a (Complete r <$> cs) = Some a' /\
     runs a' !! r = Some Finished /\ loading (st a') = false) /\
  (forall c a', act currentYear nets a (Complete r c) = Some a' ->
     runs a' !! r = Some Finished ->
     loading (st a') = false /\
     ((exists l, fetched (nets r) = Some l /\
                 books (st a') = enriched (nets r) l /\
                 (length (books (st a')) <= 10)%nat /\
                 error (st a') = error (st a)) \/
      (fetched (nets r) = None /\ books (st a') = books (st a) /\
       error (st a') = Some errorMessage))).
Proof.
  intros Hreach Hp Hnf.
  pose proof (acts_runs_ok _ _ _ _ _ (mounted_runs_ok nets) Hreach) as Hok.
  split.
  - destruct (app_run_completes currentYear nets r
                (inflight (mkMachine (st a) p)) a p Hok Hp Hnf (le_n _))
      as (cs & a' & Hlen & Hrest).
    exists cs, a'. split; [|done].
    pose proof (inflight_bound (nets r) (st a) p (Hok r p Hp)). lia.
  - intros c a' Hact Hfin. cbn [act] in Hact. rewrite Hp in Hact.
    cbn [mbind option_bind] in Hact.
    destruct (step (nets r) (mkMachine (st a) p) c) as [m'|] eqn:Hstep;
      simpl in Hact; [|done].
    injection Hact as <-. simpl in *.
    rewrite list_lookup_insert_eq in Hfin by (by eapply lookup_lt_Some).
    destruct (step_effect (nets r) (st a) p c m' (Hok r p Hp) Hstep)
      as [_ [[Hnf' _]|[_ [(l & Hl & ->)|[Hn ->]]]]].
    + congruence.
    + split; [done|]. left. exists l. simpl. rewrite length_enriched.
      repeat split; try done. exact (fetched_length _ _ Hl).
    + split; [done|]. by right.
Qed.

(** The first of two overlapping runs, when only its last detail request is
    still in flight. *)
Lemma run_ends_published_or_failed_overlap :
  (exists cs a', (length cs <= 11)%nat /\
     acts 2026 netsOverlap overlapBefore (Complete 0%nat <$> cs) = Some a' /\
     runs a' !! 0%nat = Some Finished /\ loading (st a') = false) /\
  (forall c a', act 2026 netsOverlap overlapBefore (Complete 0%nat c) = Some a' ->
     runs a' !! 0%nat = Some Finished ->
     loading (st a') = false /\
     ((exists l, fetched (netsOverlap 0%nat) = Some l /\
                 books (st a') = enriched (netsOverlap 0%nat) l /\
                 (length (books (st a')) <= 10)%nat /\
                 error (st a') = error (st overlapBefore)) \/
      (fetched (netsOverlap 0%nat) = None /\ books (st a') = books (st overlapBefore) /\
       error (st a') = Some errorMessage))).
Proof.
  apply (run_ends_published_or_failed 2026 netsOverlap overlapTrace overlapBefore 0%nat
           (AwaitDetails docsABC
              [Some (withDetails bookA (detailsABC 0)); Some (withDetails bookB (detailsABC 1));
               None])).
  - vm_compute. reflexivity.
  - vm_compute. reflexivity.
  - discriminate.
Defined.

(** ** The error state *)

Lemma handle_error currentYear (e : event) (s : State) :
  error (handle currentYear e s) = error s.
Proof.
  destruct e; simpl; try done.
  - unfold handleGenreChange. by destruct (nonEmpty text).
  - unfold handleYearChange. by destruct (nonEmpty text).
Qed.

(** An event either calls [fetchBooks], which clears the error, or leaves
    the error as it is. *)
Lemma dispatch_error currentYear (e : event) (s : State) :
  match snd (dispatch currentYear e s) with
  | Some _ => error (fst (dispatch currentYear e s)) = None
  | None => error (fst (dispatch currentYear e s)) = error s
  end.
Proof.
  pose proof (handle_error currentYear e s) as H.
  destruct e; unfold dispatch; try done;
    destruct (depsChanged _ _ && effectFetches _); simpl; done.
Qed.

Lemma join_error (u : State) (l : list jsval) slots :
  error (ui (join u l slots)) = error u.
Proof. unfold join. by destruct (mapM id slots). Qed.

(** The only completion that writes the error is that of a search that
    failed. *)
Lemma step_error net (u : State) (p : phase) (c : completion) (m' : machine) :
  step net (mkMachine u p) c = Some m' ->
  error (ui m') = error u \/ (c = SearchDone /\ fetched net = None).
Proof.
  unfold step, fetched; simpl. destruct p as [|l slots|]; destruct c as [|i]; try done.
  - destruct (search net) as [|data]; [intros _; by right|].
    destruct (fetchedBooks data) as [l|]; [|intros _; by right].
    intros [= <-]. left. apply join_error.
  - destruct (slots !! i) as [[v|]|]; try done.
    destruct (l !! i) as [book|]; try done.
    intros [= <-]. left. apply join_error.
Qed.

Lemma act_error currentYear nets (a a' : app) (x : action) :
  act currentYear nets a x = Some a' -> error (st a) = None ->
  (forall r, x = Complete r SearchDone -> fetched (nets r) <> None) ->
  error (st a') = None.
Proof.
  intros Hact He Hx. destruct x as [e|r c]; simpl in Hact.
  - pose proof (dispatch_error currentYear e (st a)) as Hd.
    destruct (dispatch currentYear e (st a)) as [s' request].
    injection Hact as <-. simpl in *. destruct request; congruence.
  - destruct (runs a !! r) as [p|]; simpl in Hact; [|done].
    destruct (step (nets r) (mkMachine (st a) p) c) as [m'|] eqn:Hstep;
      simpl in Hact; [|done].
    injection Hact as <-. simpl.
    destruct (step_error _ _ _ _ _ Hstep) as [->|[-> Hn]]; [done|].
    by destruct (Hx r).
Qed.

(** C10, as stated, fails.  Two runs overlap: the search of the first finds
    A, B and C; the search of the second, started by the button while the
    first is in flight, is rejected and sets the error; then the last detail
    request of the first run completes.  The first run is a successful run,
    and when it has ended the error message is set. *)
Lemma successful_run_ends_with_error :
  acts 2026 netsOverlap mounted overlapTrace = Some overlapBefore /\
  act 2026 netsOverlap overlapBefore (Complete 0 (DetailDone 2)) = Some overlapAfter /\
  fetched (netsOverlap 0) = Some docsABC /\
  runs overlapBefore !! 1%nat = Some Finished /\
  runs overlapAfter !! 0%nat = Some Finished /\
  books (st overlapAfter) = enriched (netsOverlap 0) docsABC /\
  error (st overlapAfter) =
    Some "An error occurred while fetching books. Please try again.".
Proof. repeat split; vm_compute; reflexivity. Qed.

(** C10, amended.  [fetchBooks] sets the error state to none before it
    awaits anything, whatever the error state was, so every event that
    starts a run leaves the error state none.  From then on the error state
    stays none as long as no search fails, whatever events and completions
    of whatever runs take place: it is none after a successful run unless
    the search of another run has failed in the meantime.  A run on its own
    whose search succeeds comes to its end, and the error state is none in
    every state it goes through. *)
Theorem error_cleared_until_a_search_fails currentYear nets :
  (forall s, error (ui (fetchBooks s)) = None /\ pc (fetchBooks s) = AwaitSearch) /\
  (forall a e a', act currentYear nets a (User e) = Some a' -> runs a' <> runs a ->
     runs a' = runs a ++ [AwaitSearch] /\ error (st a') = None) /\
  (forall xs a a', error (st a) = None -> acts currentYear nets a xs = Some a' ->
     (forall r, Complete r SearchDone ∈ xs -> fetched (nets r) <> None) ->
     error (st a') = None) /\
  (forall net s l, fetched net = Some l ->
     (exists sched m, run net s sched = Some m /\ pc m = Finished) /\
     (forall sched m, run net s sched = Some m -> error (ui m) = None)).
Proof.
  split; [done|]. split; [|split].
  - intros a e a' Hact Hruns. simpl in Hact.
    pose proof (dispatch_error currentYear e (st a)) as Hd.
    destruct (dispatch currentYear e (st a)) as [s' request].
    injection Hact as <-. simpl in *. destruct request as [url|]; [done|].
    by rewrite app_nil_r in Hruns.
  - induction xs as [|x xs IH]; simpl; intros a a' He H Hx.
    + by simplify_eq.
    + destruct (act currentYear nets a x) as [a1|] eqn:E; simpl in H; [|done].
      apply (IH a1 a'); [|done|].
      * apply (act_error currentYear nets a a1 x E He).
        intros r ->. apply Hx. by left.
      * intros r Hr. apply Hx. by right.
  - intros net s l Hf. split.
    + destruct (run_completes net s [] (fetchBooks s) eq_refl) as [_ (rest & m & H & Hpc)].
      by exists rest, m.
    + intros sched m H. by eapply run_success.
Qed.

Lemma handle_genre_change currentYear text (s : State) :
  genre (handle currentYear (GenreChange text) s) = text /\
  year (handle currentYear (GenreChange text) s) = year s.
Proof. simpl. unfold handleGenreChange. by destruct (nonEmpty text). Qed.

Lemma last_cons_default {A} (l : list A) : forall x d d',
  List.last (x :: l) d = List.last (x :: l) d'.
Proof.
  induction l as [|y l IH]; intros x d d'; [done|].
  change (List.last (y :: l) d = List.last (y :: l) d'). apply IH.
Qed.

Lemma act_user currentYear nets (a : app) (e : event) :
  act currentYear nets a (User e) =
  Some (mkApp (fst (dispatch currentYear e (st a)))
              (runs a ++ match snd (dispatch currentYear e (st a)) with
                         | Some _ => [AwaitSearch]
                         | None => []
                         end)).
Proof. simpl. by destruct (dispatch currentYear e (st a)). Qed.

(** X10.  Once the year is filled in, every change of the genre text to a
    new non-empty text calls [fetchBooks]: typing n such texts in a row
    starts n runs, one per keystroke, and the runs started before stay in
    the list of runs as they were. *)
Theorem every_keystroke_starts_a_run currentYear nets (texts : list string) : forall a : app,
  year (st a) <> "" ->
  Forall (fun text => text <> "") texts ->
  (forall i before text, (genre (st a) :: texts) !! i = Some before ->
                         texts !! i = Some text -> before <> text) ->
  exists a',
    acts currentYear nets a ((fun text => User (GenreChange text)) <$> texts) = Some a' /\
    runs a' = runs a ++ replicate (length texts) AwaitSearch /\
    genre (st a') = List.last texts (genre (st a)) /\
    year (st a') = year (st a).
Proof.
  induction texts as [|text texts IH]; intros a Hy Hne Hadj.
  - exists a. simpl. by rewrite app_nil_r.
  - apply Forall_cons in Hne as [Ht Hne].
    destruct (handle_genre_change currentYear text (st a)) as [Hg Hyr].
    set (s' := handle currentYear (GenreChange text) (st a)) in *.
    assert (Hd : dispatch currentYear (GenreChange text) (st a) =
                 (ui (fetchBooks s'), Some (searchUrl (genre s') (year s')))).
    { unfold dispatch. fold s'.
      rewrite (depsChanged_true (st a) s').
      - unfold effectFetches, nonEmpty. rewrite Hg, Hyr.
        by rewrite !truthy_VStr.
      - left. rewrite Hg. intros Heq. by apply (Hadj 0%nat (genre (st a)) text). }
    destruct (IH (mkApp (ui (fetchBooks s')) (runs a ++ [AwaitSearch])))
      as (a' & Hacts & Hruns & Hgen & Hyear).
    + simpl. by rewrite Hyr.
    + done.
    + intros i before t Hb Hi. simpl in Hb. rewrite Hg in Hb.
      by apply (Hadj (S i) before t).
    + exists a'. rewrite fmap_cons. cbn [acts]. rewrite act_user, Hd.
      cbn [fst snd mbind option_bind]. split; [done|].
      rewrite Hruns. cbn [runs length replicate]. rewrite <- app_assoc.
      split; [done|]. rewrite Hgen, Hyear. cbn [st].
      change (genre (ui (fetchBooks s'))) with (genre s').
      change (year (ui (fetchBooks s'))) with (year s').
      rewrite Hg, Hyr. split; [|done].
      destruct texts as [|t ts]; [done|].
      change (List.last (t :: ts) text = List.last (t :: ts) (genre (st a))).
      apply last_cons_default.
Qed.

Lemma every_keystroke_starts_a_run_fantasy :
  exists a',
    acts 2026 netsOverlap yearTyped ((fun text => User (GenreChange text)) <$> keystrokes) =
      Some a' /\
    runs a' = runs yearTyped ++ replicate (length keystrokes) AwaitSearch /\
    genre (st a') = List.last keystrokes (genre (st yearTyped)) /\
    year (st a') = year (st yearTyped).
Proof.
  apply (every_keystroke_starts_a_run 2026 netsOverlap keystrokes yearTyped).
  - discriminate.
  - repeat constructor; discriminate.
  - intros i before text Hb Ht.
    do 7 (destruct i as [|i]; [vm_compute in Hb, Ht; congruence|]).
    vm_compute in Ht. discriminate.
Defined.

(** X11.  An event other than the button sends a search request exactly when
    its handler has changed the genre or the year and both are then
    non-empty; so clearing a field, a click on a book, and a handler call
    that leaves both fields as they were send none, and then the state is
    just what the handler made of it. *)
Theorem automatic_fetch_iff (currentYear : Z) (e : event) (s : State) :
  e <> Submit ->
  (snd (dispatch currentYear e s) <> None <->
     (genre (handle currentYear e s) <> genre s \/
      year (handle currentYear e s) <> year s) /\
     genre (handle currentYear e s) <> "" /\ year (handle currentYear e s) <> "") /\
  (snd (dispatch currentYear e s) = None ->
     fst (dispatch currentYear e s) = handle currentYear e s) /\
  (forall book, e = BookClick book -> snd (dispatch currentYear e s) = None).
Proof.
  intros He.
  set (s' := handle currentYear e s).
  assert (Hd : dispatch currentYear e s =
               if depsChanged s s' && effectFetches s'
               then (ui (fetchBooks s'), Some (searchUrl (genre s') (year s')))
               else (s', None)).
  { by destruct e. }
  assert (Hdeps : depsChanged s s' = true <-> genre s' <> genre s \/ year s' <> year s).
  { split; [|apply depsChanged_true].
    unfold depsChanged. intros H. apply negb_true_iff, andb_false_iff in H.
    rewrite !String.eqb_neq in H. destruct H; [left | right]; congruence. }
  assert (Hne : forall t, nonEmpty t = true <-> t <> "").
  { intros t. unfold nonEmpty. simpl. by destruct t. }
  assert (Hfetch : effectFetches s' = true <-> genre s' <> "" /\ year s' <> "").
  { unfold effectFetches. by rewrite andb_true_iff, !Hne. }
  rewrite Hd. split; [|split].
  - destruct (depsChanged s s' && effectFetches s') eqn:Hc; simpl.
    + apply andb_true_iff in Hc as [H1 H2]. apply Hdeps in H1. apply Hfetch in H2.
      split; [done | by intros _].
    + split; [done|]. intros [H1 H2]. apply Hdeps in H1. apply Hfetch in H2.
      by rewrite H1, H2 in Hc.
  - by destruct (depsChanged s s' && effectFetches s').
  - intros book ->. by rewrite (depsChanged_false s s').
Qed.

Lemma automatic_fetch_iff_clearing :
  (snd (dispatch 2026 (GenreChange "") typedFantasy2024) <> None <->
     (genre (handle 2026 (GenreChange "") typedFantasy2024) <> genre typedFantasy2024 \/
      year (handle 2026 (GenreChange "") typedFantasy2024) <> year typedFantasy2024) /\
     genre (handle 2026 (GenreChange "") typedFantasy2024) <> "" /\
     year (handle 2026 (GenreChange "") typedFantasy2024) <> "") /\
  (snd (dispatch 2026 (GenreChange "") typedFantasy2024) = None ->
     fst (dispatch 2026 (GenreChange "") typedFantasy2024) =
       handle 2026 (GenreChange "") typedFantasy2024) /\
  (forall book, GenreChange "" = BookClick book ->
     snd (dispatch 2026 (GenreChange "") typedFantasy2024) = None).
Proof. apply (automatic_fetch_iff 2026 (GenreChange "") typedFantasy2024). discriminate. Defined.

(** ** Further properties of the suggestions *)

Lemma string_app_assoc (a b c : string) : (a +:+ b) +:+ c = a +:+ (b +:+ c).
Proof.
  induction a as [|x a IH]; [done|].
  change (String x ((a +:+ b) +:+ c) = String x (a +:+ (b +:+ c))). by f_equal.
Qed.

Lemma ci_substring_trans (a b c : string) :
  ci_substring a b -> ci_substring b c -> ci_substring a c.
Proof.
  intros (p & q & Hb) (p' & q' & Hc). exists (p' +:+ p), (q +:+ q').
  by rewrite Hc, Hb, !string_app_assoc.
Qed.

Lemma nonEmpty_true (text : string) : nonEmpty text = true <-> text <> "".
Proof. unfold nonEmpty. simpl. by destruct text. Qed.

Lemma genre_suggested (text : string) (s : State) (g : string) :
  g ∈ genreSuggestions (handleGenreChange text s) <->
  text <> "" /\ g ∈ popularGenres /\ ci_substring text g.
Proof.
  unfold handleGenreChange. destruct (nonEmpty text) eqn:Hne.
  - apply nonEmpty_true in Hne.
    unfold setGenreSuggestions. cbn [genreSuggestions].
    rewrite !list_elem_of_In, filter_In. unfold ci_substring.
    rewrite includes_spec. split; [by intros [? ?] | by intros (_ & ? & ?)].
  - simpl. split; [by intros ?%elem_of_nil|].
    intros [Hne' _]. apply nonEmpty_true in Hne'. congruence.
Qed.

Lemma year_suggested (currentYear : Z) (text : string) (s : State) (y : Z) :
  y ∈ yearSuggestions (handleYearChange currentYear text s) <->
  text <> "" /\ y ∈ recentYears currentYear /\ ci_substring text (toString y).
Proof.
  unfold handleYearChange. destruct (nonEmpty text) eqn:Hne.
  - apply nonEmpty_true in Hne.
    unfold setYearSuggestions. cbn [yearSuggestions].
    rewrite list_elem_of_In, filter_In, <- list_elem_of_In, includes_toString.
    split; [by intros [? ?] | by intros (_ & ? & ?)].
  - simpl. split; [by intros ?%elem_of_nil|].
    intros [Hne' _]. apply nonEmpty_true in Hne'. congruence.
Qed.

Lemma ci_substring_nonempty (text candidate : string) :
  text <> "" -> ci_substring text candidate -> candidate <> "".
Proof.
  intros Ht (p & q & H) ->. simpl in H.
  destruct p; simpl in H; [|done]. by destruct text.
Qed.

(** X12.  Typing more never brings a suggestion back: when the text [text]
    occurs (case ignored) in a longer text, every genre and every year
    suggested for the longer text was already suggested for [text]. *)
Theorem typing_more_narrows_suggestions (currentYear : Z) (text longer : string) (s : State) :
  text <> "" -> ci_substring text longer ->
  (forall g, g ∈ genreSuggestions (handleGenreChange longer s) ->
             g ∈ genreSuggestions (handleGenreChange text s)) /\
  (forall y, y ∈ yearSuggestions (handleYearChange currentYear longer s) ->
             y ∈ yearSuggestions (handleYearChange currentYear text s)).
Proof.
  intros Ht Hsub. split.
  - intros g. rewrite !genre_suggested. intros (_ & Hg & Hl).
    repeat split; try done. by eapply ci_substring_trans.
  - intros y. rewrite !year_suggested. intros (_ & Hy & Hl).
    repeat split; try done. by eapply ci_substring_trans.
Qed.

Lemma typing_more_narrows_suggestions_fan :
  (forall g, g ∈ genreSuggestions (handleGenreChange "FANT" initialState) ->
             g ∈ genreSuggestions (handleGenreChange "an" initialState)) /\
  (forall y, y ∈ yearSuggestions (handleYearChange 2026 "FANT" initialState) ->
             y ∈ yearSuggestions (handleYearChange 2026 "an" initialState)).
Proof.
  apply (typing_more_narrows_suggestions 2026 "an" "FANT" initialState).
  - discriminate.
  - by exists "f", "t".
Defined.

Lemma filter_none {A} (f : A -> bool) (l : list A) :
  (forall x, In x l -> f x = false) -> List.filter f l = [].
Proof.
  induction l as [|x l IH]; simpl; intros H; [done|].
  rewrite (H x) by (by left). apply IH. intros y Hy. apply H. by right.
Qed.

(** X13.  A year text with a character that is neither a digit nor a minus
    sign matches no year: the year suggestions are empty, whatever the
    current year is. *)
Theorem non_numeric_year_suggests_nothing (currentYear : Z) (text : string) (s : State) :
  allChars decimalChar text = false ->
  year (handleYearChange currentYear text s) = text /\
  yearSuggestions (handleYearChange currentYear text s) = [].
Proof.
  intros Hbad. unfold handleYearChange.
  destruct (nonEmpty text); [|done]. split; [done|].
  unfold setYearSuggestions. cbn [yearSuggestions].
  apply filter_none. intros y _.
  destruct (includes (toString y) text) eqn:Hinc; [|done].
  apply includes_spec in Hinc as (pre & post & H).
  pose proof (toString_decimal y) as Hd. rewrite H in Hd.
  rewrite !allChars_app, !andb_true_iff in Hd. destruct Hd as (_ & Ht & _).
  congruence.
Qed.

Lemma non_numeric_year_suggests_nothing_2o26 :
  year (handleYearChange 2026 "2o26" initialState) = "2o26" /\
  yearSuggestions (handleYearChange 2026 "2o26" initialState) = [].
Proof. apply (non_numeric_year_suggests_nothing 2026 "2o26" initialState). reflexivity. Defined.

Lemma sublist_filter_bool {A} (f : A -> bool) (l : list A) :
  sublist (List.filter f l) l.
Proof.
  induction l as [|x l IH]; simpl; [constructor|].
  destruct (f x); by constructor.
Qed.

Lemma NoDup_recentYears (currentYear : Z) : NoDup (recentYears currentYear).
Proof.
  unfold recentYears. apply NoDup_fmap_2; [|apply NoDup_seq].
  intros i j H. lia.
Qed.

(** X14.  Suggestions come in the candidates' own order and without
    repetition: the genres in the order of the curated list, the years from
    the current one downwards; so there are never more than eleven genres
    or ten years on offer. *)
Theorem suggestions_keep_candidate_order (currentYear : Z) (text : string) (s : State) :
  recentYears currentYear =
    [currentYear - 0; currentYear - 1; currentYear - 2; currentYear - 3;
     currentYear - 4; currentYear - 5; currentYear - 6; currentYear - 7;
     currentYear - 8; currentYear - 9] /\
  sublist (genreSuggestions (handleGenreChange text s)) popularGenres /\
  sublist (yearSuggestions (handleYearChange currentYear text s)) (recentYears currentYear) /\
  NoDup (genreSuggestions (handleGenreChange text s)) /\
  NoDup (yearSuggestions (handleYearChange currentYear text s)) /\
  (length (genreSuggestions (handleGenreChange text s)) <= 11)%nat /\
  (length (yearSuggestions (handleYearChange currentYear text s)) <= 10)%nat.
Proof.
  assert (Hg : sublist (genreSuggestions (handleGenreChange text s)) popularGenres).
  { unfold handleGenreChange. destruct (nonEmpty text);
      unfold setGenreSuggestions; cbn [genreSuggestions].
    - apply sublist_filter_bool.
    - apply sublist_nil_l. }
  assert (Hy : sublist (yearSuggestions (handleYearChange currentYear text s))
                       (recentYears currentYear)).
  { unfold handleYearChange. destruct (nonEmpty text);
      unfold setYearSuggestions; cbn [yearSuggestions].
    - apply sublist_filter_bool.
    - apply sublist_nil_l. }
  assert (Hnd : NoDup popularGenres).
  { apply (bool_decide_unpack (NoDup popularGenres)). vm_compute. exact I. }
  split; [done|]. split; [done|]. split; [done|].
  split; [exact (sublist_NoDup _ _ Hnd Hg)|].
  split; [exact (sublist_NoDup _ _ (NoDup_recentYears currentYear) Hy)|].
  split.
  - apply sublist_length in Hg. simpl in Hg. lia.
  - apply sublist_length in Hy. unfold recentYears in Hy.
    rewrite length_fmap, length_seq in Hy. lia.
Qed.

(** ** The request URLs *)

Lemma split_at_ampersand (g1 : string) : forall g2 r1 r2 : string,
  allChars (fun c => negb (Ascii.eqb c "&")) g1 = true ->
  allChars (fun c => negb (Ascii.eqb c "&")) g2 = true ->
  g1 +:+ String "&" r1 = g2 +:+ String "&" r2 ->
  g1 = g2 /\ r1 = r2.
Proof.
  induction g1 as [|c g1 IH]; intros [|d g2] r1 r2 H1 H2 H.
  - by injection H as ->.
  - injection H as <- _. simpl in H2. done.
  - injection H as -> _. simpl in H1. done.
  - injection H as -> H. simpl in H1, H2.
    apply andb_true_iff in H1 as [_ H1]. apply andb_true_iff in H2 as [_ H2].
    by destruct (IH g2 r1 r2 H1 H2 H) as [-> ->].
Qed.

(** X15.  The search URL is built without escaping.  It identifies the two
    inputs as long as the genre holds no ampersand: then equal URLs come from
    equal genres and equal years.  A genre that holds the text
    [&first_publish_year=] gives the very URL of another genre and year. *)
Theorem search_url_identifies_inputs :
  (forall g1 y1 g2 y2 : string,
     allChars (fun c => negb (Ascii.eqb c "&")) g1 = true ->
     allChars (fun c => negb (Ascii.eqb c "&")) g2 = true ->
     searchUrl g1 y1 = searchUrl g2 y2 -> g1 = g2 /\ y1 = y2) /\
  (forall g y z : string,
     searchUrl (g +:+ "&first_publish_year=" +:+ y) z =
     searchUrl g (y +:+ "&first_publish_year=" +:+ z)).
Proof.
  split.
  - intros g1 y1 g2 y2 H1 H2 H. unfold searchUrl in H.
    apply (inj (String.app _)) in H.
    apply (split_at_ampersand g1 g2) in H as [-> H]; [|done..].
    split; [done|]. by apply (inj (String.app "first_publish_year=")) in H.
  - intros g y z. unfold searchUrl. f_equal.
    change ("&first_publish_year=" +:+ y) with (String "&" ("first_publish_year=" +:+ y)).
    by rewrite !string_app_assoc.
Qed.

Example fantasy_url_and_a_forged_one :
  searchUrl "Science Fiction" "2024" =
    "https://openlibrary.org/search.json?q=Science Fiction&first_publish_year=2024" /\
  searchUrl "Horror&first_publish_year=1999" "2024" = searchUrl "Horror" "1999&first_publish_year=2024".
Proof. split; reflexivity. Qed.

(** X16.  A detail request is sent for an entry exactly when its URL can be
    built: unless the entry is [null] or [undefined], or its [key] has no
    text, which for parsed JSON means an object with a property of its own
    called [toString] (or an array that holds one).  An entry whose URL
    cannot be built is published as it is, whatever the network would have
    answered.  The URL holds the text of the entry's [key], so an entry
    without a key is requested at [https://openlibrary.orgundefined.json]. *)
Theorem detail_request_sent_iff (book : jsval) :
  (detailUrl book = None <->
     nullish book = true \/ toStr (default VUndef (own_props book !! "key")) = None) /\
  (detailUrl book = None ->
     startDetail book = Some book /\ forall r, withDetails book r = book) /\
  (is_Some (detailUrl book) -> startDetail book = None) /\
  (forall m : gmap string jsval, toStr (VObj m) = None <-> is_Some (m !! "toString")) /\
  (nullish book = false -> own_props book !! "key" = None ->
     detailUrl book = Some "https://openlibrary.orgundefined.json") /\
  (forall key, nullish book = false -> own_props book !! "key" = Some (VStr key) ->
     detailUrl book = Some ("https://openlibrary.org" +:+ key +:+ ".json")).
Proof.
  split; [|split; [|split; [|split; [|split]]]].
  - unfold detailUrl. destruct (nullish book) eqn:Hn.
    + rewrite (get_nullish _ "key" Hn). split; [by left | done].
    + rewrite (get_object _ "key" Hn). cbn [mbind option_bind].
      destruct (toStr _) as [text|]; simpl; split; try done.
      * by intros [|].
      * by right.
  - intros Hb. split; [unfold startDetail; by rewrite Hb|].
    intros r. by apply withDetails_unsent.
  - intros [url Hb]. unfold startDetail. by rewrite Hb.
  - apply toStr_object.
  - intros Hn Hk. unfold detailUrl. by rewrite (get_object _ "key" Hn), Hk.
  - intros key Hn Hk. unfold detailUrl. by rewrite (get_object _ "key" Hn), Hk.
Qed.

Example keys_without_text :
  detailUrl (obj [("key", obj [("toString", VNum 1)])]) = None /\
  detailUrl (obj [("key", VArr [VStr "/works/"; obj [("toString", VNull)]])]) = None /\
  detailUrl (obj [("key", obj [("id", VNum 1)])]) =
    Some "https://openlibrary.org[object Object].json" /\
  detailUrl (obj [("key", VArr [VStr "/works"; VNull; VStr "OL1W"])]) =
    Some "https://openlibrary.org/works,,OL1W.json".
Proof. repeat split; vm_compute; reflexivity. Qed.

(** ** The author line of a card *)

Lemma joinWith_strings (sep : string) (names : list string) :
  joinWith toStr sep (VStr <$> names) = Some (String.concat sep names).
Proof.
  unfold joinWith.
  assert (mapM (fun x => if nullish x then Some "" else toStr x) (VStr <$> names) =
          Some names) as ->; [|done].
  apply mapM_Some. induction names as [|name names IH]; constructor; done.
Qed.

(** X17.  The author line of a card: 'Unknown Author' when the book has no
    [author_name] (or a falsy one); the names joined by a comma and a space
    when it is a list of names; and the empty text, not 'Unknown Author',
    when it is the empty list, which is truthy. *)
Theorem authors_line_of_card (expanded : bool) (book : jsval) (card : Card) :
  renderCard expanded book = Some card ->
  (truthy (default VUndef (own_props book !! "author_name")) = false ->
     cardAuthors card = "Unknown Author") /\
  (forall names, own_props book !! "author_name" = Some (VArr (VStr <$> names)) ->
     cardAuthors card = String.concat ", " names) /\
  (own_props book !! "author_name" = Some (VArr []) -> cardAuthors card = "").
Proof.
  intros Hcard.
  assert (Hn : nullish book = false).
  { destruct (nullish book) eqn:Hn; [|done].
    unfold renderCard in Hcard. by rewrite (get_nullish _ "key" Hn) in Hcard. }
  assert (Ha : authorsLine (default VUndef (own_props book !! "author_name")) =
               Some (cardAuthors card)).
  { rewrite (renderCard_readable _ _ Hn) in Hcard.
    destruct (coverAddress _); simpl in Hcard; [|done].
    destruct (toStr _); simpl in Hcard; [|done].
    destruct (authorsLine _) as [authors|]; simpl in Hcard; [|done].
    by injection Hcard as <-. }
  assert (Hnames : forall names,
            own_props book !! "author_name" = Some (VArr (VStr <$> names)) ->
            cardAuthors card = String.concat ", " names).
  { intros names Hl. rewrite Hl in Ha. unfold authorsLine in Ha.
    cbn [default from_option id truthy] in Ha.
    rewrite joinWith_strings in Ha. by injection Ha as <-. }
  split; [|split].
  - intros Hf. unfold authorsLine in Ha. rewrite Hf in Ha. by injection Ha as <-.
  - exact Hnames.
  - intros Hl. by apply (Hnames []).
Qed.

Lemma authors_line_of_card_B :
  (truthy (default VUndef (own_props bookB !! "author_name")) = false ->
     cardAuthors cardB = "Unknown Author") /\
  (forall names, own_props bookB !! "author_name" = Some (VArr (VStr <$> names)) ->
     cardAuthors cardB = String.concat ", " names) /\
  (own_props bookB !! "author_name" = Some (VArr []) -> cardAuthors cardB = "").
Proof. apply (authors_line_of_card false bookB cardB). vm_compute. reflexivity. Defined.

Example empty_author_list_shows_nothing :
  cardAuthors <$> renderCard false (obj [("key", VStr "/works/OL9W"); ("author_name", VArr [])]) =
    Some "" /\
  cardAuthors <$> renderCard false (obj [("key", VStr "/works/OL9W")]) =
    Some "Unknown Author" /\
  renderCard false (obj [("key", VStr "/works/OL9W"); ("author_name", VStr "Ann")]) = None.
Proof. repeat split; vm_compute; reflexivity. Qed.
